(** * The vector processor of the Well-Architected IaC analyzer

    A shallow embedding of
    [ecs_fargate_app/lambda_vector_processor/vector_processor.py]:
    the chunker [chunk_text], the identity generator [generate_chunk_id],
    and the pipeline [process_document] / [store_vectors] / [update_index] /
    [handler], followed by the properties of the specification that are
    settled against them.

    Conventions of the embedding:
    - a Python [int] is a [Z];
    - a Python [str] that is processed character by character (document
      content, chunk text) is a [list ascii], one [ascii] per code point,
      for the code points below 256; names, keys and messages are [string];
    - the one floating-point operation of the program,
      [char_chunk_size * 0.7], is computed exactly as IEEE binary64 does,
      on dyadic numbers;
    - the S3 buckets, the Bedrock endpoint and the clock are an explicit
      world threaded through a small state-and-exception monad; what the
      program prints is not part of it;
    - loops that need not terminate take fuel, and running out of it is an
      outcome of its own. *)

From Stdlib Require Import ZArith Lia List Ascii String DecimalString.
From stdpp Require Import base option list gmap strings.

#[local] Open Scope Z_scope.

(** ** Python built-ins used by the program *)

Definition pystr : Type := list ascii.

(** [len(l)] *)
Definition len {A} (l : list A) : Z := Z.of_nat (length l).

(** How a slice bound is normalised: negative bounds count from the end,
    and everything is clipped to [0, len]. *)
Definition slice_index (n i : Z) : Z :=
  if i <? 0 then Z.max (i + n) 0 else Z.min i n.

(** [l[i:j]] *)
Definition py_slice {A} (l : list A) (i j : Z) : list A :=
  let lo := slice_index (len l) i in
  let hi := slice_index (len l) j in
  take (Z.to_nat (hi - lo)) (drop (Z.to_nat lo) l).

(** [s.rfind(c)] for a one-character needle: the highest index of [c] in
    [s], or [-1]. *)
Fixpoint rfind (c : ascii) (s : pystr) : Z :=
  match s with
  | [] => -1
  | a :: s' =>
      let r := rfind c s' in
      if 0 <=? r then r + 1
      else if bool_decide (a = c) then 0 else -1
  end.

(** The code point of a character. *)
Definition code (a : ascii) : Z := Z.of_N (N_of_ascii a).

(** [c.isspace()] on the code points below 256. *)
Definition is_space (a : ascii) : bool :=
  let n := code a in
  ((9 <=? n) && (n <=? 13)) || ((28 <=? n) && (n <=? 32))
  || (n =? 133) || (n =? 160).

Fixpoint lstrip (s : pystr) : pystr :=
  match s with
  | a :: s' => if is_space a then lstrip s' else s
  | [] => []
  end.

Definition rstrip (s : pystr) : pystr := rev (lstrip (rev s)).

(** [s.strip()] *)
Definition strip (s : pystr) : pystr := rstrip (lstrip s).

(** A lower-case hexadecimal digit. *)
Definition hex_digit (d : Z) : ascii :=
  ascii_of_N (Z.to_N (if d <? 10 then 48 + d else 87 + d)).

(** Literals of [pystr]. *)
Definition py (s : string) : pystr := list_ascii_of_string s.

(** [str(n)] for an [int]. *)
Definition str_of_int (n : Z) : pystr := py (NilZero.string_of_int (Z.to_int n)).

(** [c.lower()] on the code points below 256. *)
Definition lower_char (a : ascii) : ascii :=
  let n := code a in
  if ((65 <=? n) && (n <=? 90))
     || ((192 <=? n) && (n <=? 222) && negb (n =? 215))
  then ascii_of_N (Z.to_N (n + 32)) else a.

Fixpoint string_map (f : ascii -> ascii) (s : string) : string :=
  match s with
  | EmptyString => EmptyString
  | String a s' => String (f a) (string_map f s')
  end.

(** [s.lower()] and [s.replace(' ', '-')] *)
Definition lower (s : string) : string := string_map lower_char s.

Definition replace_space_hyphen (s : string) : string :=
  string_map (fun a => if bool_decide (a = " "%char) then "-"%char else a) s.

(** ** Binary64 arithmetic, as far as the program uses it

    A finite double is [fmant * 2 ^ fexp].  [round53] rounds a natural number
    to 53 significant bits, ties to even. *)

Record float := Float { fmant : Z; fexp : Z }.

Definition round53 (m : Z) : Z * Z :=
  let L := Z.log2 m in
  if L <=? 52 then (m, 0)
  else
    let s := L - 52 in
    let q := Z.shiftr m s in
    let r := m mod 2 ^ s in
    let half := 2 ^ (s - 1) in
    (if (half <? r) || ((r =? half) && Z.odd q) then q + 1 else q, s).

(** [float(n)], which is what [n * 0.7] does to its integer operand first;
    [None] is Python's [OverflowError]. *)
Definition float_of_int (n : Z) : option float :=
  let '(q, s) := round53 (Z.abs n) in
  if 2 ^ 1024 <=? q * 2 ^ s then None
  else Some (Float (Z.sgn n * q) s).

(** The literal [0.7], that is [0x1.6666666666666p-1]. *)
Definition float_0_7 : float := Float 3152519739159347 (-52).

(** The product of two doubles, correctly rounded.  (Exact as long as the
    result is in the normal range, which the product of an integer-valued
    double and [0.7] always is.) *)
Definition float_mul (x y : float) : float :=
  let p := fmant x * fmant y in
  let '(q, s) := round53 (Z.abs p) in
  Float (Z.sgn p * q) (s + fexp x + fexp y).

(** [n > x] for an [int] [n] and a [float] [x]: Python compares the two
    exactly. *)
Definition int_gt_float (n : Z) (x : float) : bool :=
  if 0 <=? fexp x then fmant x * 2 ^ fexp x <? n
  else fmant x <? n * 2 ^ (- fexp x).

(** ** Exceptions and results *)

Inductive exn :=
| OverflowError                 (* int too large to convert to float *)
| KeyError (key : string)       (* a missing dictionary key *)
| NoSuchKey (msg : string)      (* S3 has no object under the key *)
| ClientError (msg : string).   (* raised inside a boto3 call, [msg = str(e)] *)

Inductive result (A : Type) :=
| Ok (a : A)
| Raise (e : exn).
Arguments Ok {A} a.
Arguments Raise {A} e.

(** ** The chunker *)

Module Chunk.
Record t := Make {
  text : pystr;
  chunk_index : Z;
  start_char : Z;
  end_char : Z
}.
End Chunk.

(** The body of the [while] loop up to the point where [end] is final:
    the hard window boundary, pulled back to just after the last period or
    newline of the window when the window stops short of the end of the
    text and that character lies past 70% of the window. *)
Definition window_end (text : pystr) (char_chunk_size start : Z) : result Z :=
  let end_ := start + char_chunk_size in
  let chunk_text := py_slice text start end_ in
  if end_ <? len text then
    let last_period := rfind "."%char chunk_text in
    let last_newline := rfind "010"%char chunk_text in
    let break_point := Z.max last_period last_newline in
    match float_of_int char_chunk_size with
    | None => Raise OverflowError
    | Some w =>
        if int_gt_float break_point (float_mul w float_0_7)
        then Ok (start + break_point + 1)
        else Ok end_
    end
  else Ok end_.

(** The [while start < len(text)] loop; [fuel] bounds the number of
    iterations, [None] means the bound was reached. *)
Fixpoint chunk_loop (fuel : nat) (text : pystr) (char_chunk_size char_overlap : Z)
    (chunks : list Chunk.t) (start chunk_index : Z)
  : option (result (list Chunk.t)) :=
  match fuel with
  | O => None
  | S fuel' =>
      if start <? len text then
        match window_end text char_chunk_size start with
        | Raise e => Some (Raise e)
        | Ok end_ =>
            let chunk :=
              Chunk.Make (strip (py_slice text start end_)) chunk_index start end_ in
            chunk_loop fuel' text char_chunk_size char_overlap
              (chunks ++ [chunk]) (end_ - char_overlap) (chunk_index + 1)
        end
      else Some (Ok chunks)
  end.

Definition chunk_text (fuel : nat) (text : pystr) (chunk_size overlap : Z)
  : option (result (list Chunk.t)) :=
  let char_chunk_size := chunk_size * 4 in
  let char_overlap := overlap * 4 in
  chunk_loop fuel text char_chunk_size char_overlap [] 0 0.

(** The runs of the loop that leave it normally, as a relation: entered at
    [start] with [chunk_index], the loop appends exactly [chunks]. *)
Inductive loop_chunks (text : pystr) (char_chunk_size char_overlap : Z)
  : Z -> Z -> list Chunk.t -> Prop :=
| loop_exit start chunk_index :
    len text <= start ->
    loop_chunks text char_chunk_size char_overlap start chunk_index []
| loop_iter start chunk_index end_ chunks :
    start < len text ->
    window_end text char_chunk_size start = Ok end_ ->
    loop_chunks text char_chunk_size char_overlap
      (end_ - char_overlap) (chunk_index + 1) chunks ->
    loop_chunks text char_chunk_size char_overlap start chunk_index
      (Chunk.Make (strip (py_slice text start end_)) chunk_index start end_ :: chunks).

(** ** SHA-256 ([hashlib.sha256]), on bytes as integers below 256 *)

Module SHA256.

Definition w32 (x : Z) : Z := x mod 2 ^ 32.
Definition add32 (x y : Z) : Z := w32 (x + y).
Definition rotr (n x : Z) : Z := Z.lor (Z.shiftr x n) (w32 (Z.shiftl x (32 - n))).
Definition not32 (x : Z) : Z := Z.lxor x 0xffffffff.

Definition Ch (x y z : Z) : Z := Z.lxor (Z.land x y) (Z.land (not32 x) z).
Definition Maj (x y z : Z) : Z :=
  Z.lxor (Z.lxor (Z.land x y) (Z.land x z)) (Z.land y z).
Definition Sigma0 (x : Z) : Z := Z.lxor (Z.lxor (rotr 2 x) (rotr 13 x)) (rotr 22 x).
Definition Sigma1 (x : Z) : Z := Z.lxor (Z.lxor (rotr 6 x) (rotr 11 x)) (rotr 25 x).
Definition sigma0 (x : Z) : Z := Z.lxor (Z.lxor (rotr 7 x) (rotr 18 x)) (Z.shiftr x 3).
Definition sigma1 (x : Z) : Z := Z.lxor (Z.lxor (rotr 17 x) (rotr 19 x)) (Z.shiftr x 10).

(** The constants are the first 32 bits of the fractional parts of the
    cube roots (for [K]) and of the square roots (for [H0]) of the first
    primes. *)
Definition primes : list Z :=
  [
   2; 3; 5; 7; 11; 13; 17; 19; 23; 29; 31; 37; 41; 43; 47; 53;
   59; 61; 67; 71; 73; 79; 83; 89; 97; 101; 103; 107; 109; 113; 127; 131;
   137; 139; 149; 151; 157; 163; 167; 173; 179; 181; 191; 193; 197; 199; 211; 223;
   227; 229; 233; 239; 241; 251; 257; 263; 269; 271; 277; 281; 283; 293; 307; 311 ].

(** The integer cube root below [2 ^ n], one bit at a time. *)
Fixpoint cube_root (n : nat) (x r : Z) : Z :=
  match n with
  | O => r
  | S n' =>
      let r' := r + 2 ^ Z.of_nat n' in
      cube_root n' x (if r' * r' * r' <=? x then r' else r)
  end.

Definition K : list Z :=
  map (fun p => w32 (cube_root 40 (p * 2 ^ 96) 0)) primes.

Definition H0 : list Z :=
  map (fun p => w32 (Z.sqrt (p * 2 ^ 64))) (take 8 primes).

(** Big-endian bytes of a number, [n] of them. *)
Fixpoint be_bytes (n : nat) (x : Z) : list Z :=
  match n with
  | O => []
  | S n' => be_bytes n' (x / 256) ++ [x mod 256]
  end.

Definition be_word (bs : list Z) : Z := foldl (fun acc b => acc * 256 + b) 0 bs.

(** The message, a [1] bit, zeros up to 56 modulo 64, and the bit length
    on 8 bytes. *)
Definition pad (msg : list Z) : list Z :=
  let l := len msg in
  msg ++ [128] ++ replicate (Z.to_nat ((55 - l) mod 64)) 0 ++ be_bytes 8 (8 * l).

Fixpoint words (n : nat) (bs : list Z) : list Z :=
  match n with
  | O => []
  | S n' => be_word (take 4 bs) :: words n' (drop 4 bs)
  end.

(** The message schedule, most recent word first. *)
Fixpoint extend (n : nat) (ws : list Z) : list Z :=
  match n with
  | O => ws
  | S n' =>
      let w := add32 (add32 (sigma1 (ws !!! 1%nat)) (ws !!! 6%nat))
                     (add32 (sigma0 (ws !!! 14%nat)) (ws !!! 15%nat)) in
      extend n' (w :: ws)
  end.

Definition schedule (block : list Z) : list Z :=
  rev (extend 48 (rev (words 16 block))).

Definition round (s : list Z) (kw : Z * Z) : list Z :=
  match s with
  | [a; b; c; d; e; f; g; h] =>
      let t1 := add32 (add32 (add32 h (Sigma1 e)) (add32 (Ch e f g) kw.1)) kw.2 in
      let t2 := add32 (Sigma0 a) (Maj a b c) in
      [add32 t1 t2; a; b; c; add32 d t1; e; f; g]
  | _ => s
  end.

Definition compress (h : list Z) (block : list Z) : list Z :=
  zip_with add32 h (foldl round h (zip K (schedule block))).

Fixpoint blocks (n : nat) (h : list Z) (bs : list Z) : list Z :=
  match n with
  | O => h
  | S n' => blocks n' (compress h (take 64 bs)) (drop 64 bs)
  end.

Definition digest (msg : list Z) : list Z :=
  let p := pad msg in
  flat_map (be_bytes 4) (blocks (length p / 64) H0 p).

(** [hashlib.sha256(msg).hexdigest()] *)
Definition hexdigest (msg : list Z) : pystr :=
  flat_map (fun b => [hex_digit (b / 16); hex_digit (b mod 16)]) (digest msg).

End SHA256.

(** [s.encode()]: UTF-8, for code points below 256. *)
Definition encode (s : pystr) : list Z :=
  flat_map (fun a =>
    let n := code a in
    if n <? 128 then [n] else [192 + n / 64; 128 + n mod 64]) s.


(** ** [json.dumps], for the values the program serialises to text

    Objects are association lists in insertion order, as Python dictionaries
    are; [sort_keys] orders them by key. *)

Inductive json :=
| JInt (n : Z)
| JStr (s : pystr).

Definition quote : ascii := "034"%char.

(** What [ensure_ascii] does to one character of a string. *)
Definition json_escape (a : ascii) : pystr :=
  let n := code a in
  if n =? 34 then ["\"%char; quote]
  else if n =? 92 then py "\\"
  else if n =? 10 then py "\n"
  else if n =? 13 then py "\r"
  else if n =? 9 then py "\t"
  else if n =? 8 then py "\b"
  else if n =? 12 then py "\f"
  else if (32 <=? n) && (n <=? 126) then [a]
  else py "\u00" ++ [hex_digit (n / 16); hex_digit (n mod 16)].

Definition json_string (s : pystr) : pystr :=
  [quote] ++ flat_map json_escape s ++ [quote].

Definition json_value (v : json) : pystr :=
  match v with
  | JInt n => str_of_int n
  | JStr s => json_string s
  end.

Definition json_item (kv : string * json) : pystr :=
  json_string (py kv.1) ++ py ": " ++ json_value kv.2.

Fixpoint join (sep : pystr) (l : list pystr) : pystr :=
  match l with
  | [] => []
  | [x] => x
  | x :: l' => x ++ sep ++ join sep l'
  end.

Fixpoint insert_by_key (kv : string * json) (l : list (string * json))
  : list (string * json) :=
  match l with
  | [] => [kv]
  | kv' :: l' =>
      if String.leb kv.1 kv'.1 then kv :: l else kv' :: insert_by_key kv l'
  end.

Definition sorted_by_key (d : list (string * json)) : list (string * json) :=
  foldr insert_by_key [] d.

Definition json_dumps (sort_keys : bool) (d : list (string * json)) : pystr :=
  let items := if sort_keys then sorted_by_key d else d in
  py "{" ++ join (py ", ") (map json_item items) ++ py "}".

(** ** The identity generator *)

Module Metadata.
Record t := Make {
  lens_name : string;
  pillar : string;
  source_file : string;
  chunk_index : Z;
  start_char : Z;
  end_char : Z;
  processed_at : string
}.

(** The dictionary, in the order its literal lists the keys. *)
Definition items (m : t) : list (string * json) :=
  [ ("lens_name"%string, JStr (py (lens_name m)));
    ("pillar"%string, JStr (py (pillar m)));
    ("source_file"%string, JStr (py (source_file m)));
    ("chunk_index"%string, JInt (chunk_index m));
    ("start_char"%string, JInt (start_char m));
    ("end_char"%string, JInt (end_char m));
    ("processed_at"%string, JStr (py (processed_at m))) ].
End Metadata.

Definition generate_chunk_id (text : pystr) (metadata : Metadata.t) : string :=
  let content := text ++ json_dumps true (Metadata.items metadata) in
  string_of_list_ascii (take 16 (SHA256.hexdigest (encode content))).

(** ** The outside world: two buckets, the embedding endpoint, the clock *)

Module ChunkRecord.
Record t := Make {
  id : string;
  text : pystr;
  embedding : list float;
  metadata : Metadata.t
}.
End ChunkRecord.

Module IndexEntry.
Record t := Make {
  chunk_count : Z;
  last_updated : string
}.
End IndexEntry.

(** [index['lenses']]: lens name, then pillar, to entry
    ([index['lenses'][lens]['pillars'][pillar]]). *)
Abbreviation Index := (gmap string (gmap string IndexEntry.t)).

(** What an object of the vectors bucket holds.  The body is kept as the
    value that [json.dumps] was given; [MalformedBody e] is any other
    content, with the exception that reading it as an index raises. *)
Inductive s3_body :=
| ChunkBody (chunk : ChunkRecord.t)
| IndexBody (index : Index)
| MalformedBody (e : exn).

(** The request body of [invoke_model]. *)
Record EmbedRequest := {
  modelId : string;
  inputText : pystr;
  dimensions : Z;
  normalize : bool
}.

(** The configuration comes from the process environment; the behaviour of
    the services is a function of the number of external calls made so far,
    so that any deterministic environment is covered; the state is that
    counter and the contents of the vectors bucket.  A fault of the vectors
    bucket is the message of the [ClientError] that the call raises instead
    of doing its work; a key that is absent is not a fault. *)
Record World := {
  EMBEDDING_MODEL : string;
  EMBEDDING_DIMENSIONS : Z;
  source_object : nat -> string -> result pystr;
  vectors_get_fault : nat -> string -> option string;
  vectors_put_fault : nat -> string -> option string;
  bedrock : nat -> EmbedRequest -> result (list float);
  clock : nat -> string;
  calls : nat;
  vectors : gmap string s3_body
}.

Definition with_state (w : World) (n : nat) (v : gmap string s3_body) : World :=
  {| EMBEDDING_MODEL := EMBEDDING_MODEL w;
     EMBEDDING_DIMENSIONS := EMBEDDING_DIMENSIONS w;
     source_object := source_object w;
     vectors_get_fault := vectors_get_fault w;
     vectors_put_fault := vectors_put_fault w;
     bedrock := bedrock w;
     clock := clock w;
     calls := n;
     vectors := v |}.

Definition tick (w : World) : World := with_state w (S (calls w)) (vectors w).

(** ** The monad of the pipeline: state, exceptions, and running out of fuel *)

Inductive outcome (A : Type) :=
| Return (a : A) (w : World)
| Throw (e : exn) (w : World)
| Diverge.
Arguments Return {A} a w.
Arguments Throw {A} e w.
Arguments Diverge {A}.

Definition M (A : Type) : Type := World -> outcome A.

#[global] Instance M_ret : MRet M := fun A a w => Return a w.

#[global] Instance M_bind : MBind M := fun A B k m w =>
  match m w with
  | Return a w' => k a w'
  | Throw e w' => Throw e w'
  | Diverge => Diverge
  end.

Definition raise {A} (e : exn) : M A := fun w => Throw e w.

(** [try: m  except exc as e: h e], for the exceptions [catches] selects. *)
Definition try_except {A} (m : M A) (catches : exn -> bool) (h : exn -> M A) : M A :=
  fun w =>
    match m w with
    | Throw e w' => if catches e then h e w' else Throw e w'
    | o => o
    end.

(** A pure computation that may raise or exhaust its fuel. *)
Definition lift {A} (r : option (result A)) : M A := fun w =>
  match r with
  | Some (Ok a) => Return a w
  | Some (Raise e) => Throw e w
  | None => Diverge
  end.

(** [for x in l: f x], collecting the results. *)
Fixpoint for_each {A B} (f : A -> M B) (l : list A) : M (list B) :=
  match l with
  | [] => mret []
  | x :: l' => y ← f x; ys ← for_each f l'; mret (y :: ys)
  end.

(** *** The external calls *)

(** [s3_client.get_object(Bucket=SOURCE_BUCKET, Key=key)], read and decoded. *)
Definition get_source_text (key : string) : M pystr := fun w =>
  match source_object w (calls w) key with
  | Ok content => Return content (tick w)
  | Raise e => Throw e (tick w)
  end.

Definition no_such_key_msg : string :=
  "An error occurred (NoSuchKey) when calling the GetObject operation: The specified key does not exist.".

(** [s3_client.get_object(Bucket=VECTORS_BUCKET, Key=key)] *)
Definition get_object (key : string) : M s3_body := fun w =>
  match vectors_get_fault w (calls w) key with
  | Some msg => Throw (ClientError msg) (tick w)
  | None =>
      match vectors w !! key with
      | Some body => Return body (tick w)
      | None => Throw (NoSuchKey no_such_key_msg) (tick w)
      end
  end.

(** [s3_client.put_object(Bucket=VECTORS_BUCKET, Key=key, Body=body)] *)
Definition put_object (key : string) (body : s3_body) : M unit := fun w =>
  match vectors_put_fault w (calls w) key with
  | Some msg => Throw (ClientError msg) (tick w)
  | None => Return () (with_state w (S (calls w)) (<[key := body]> (vectors w)))
  end.

(** [datetime.utcnow().isoformat()] *)
Definition utcnow_isoformat : M string := fun w =>
  Return (clock w (calls w)) (tick w).

Definition invoke_model (req : EmbedRequest) : M (list float) := fun w =>
  match bedrock w (calls w) req with
  | Ok v => Return v (tick w)
  | Raise e => Throw e (tick w)
  end.

Definition config {A} (f : World -> A) : M A := fun w => Return (f w) w.

(** ** The pipeline *)

(** The [except] clause of [generate_embedding] prints and re-raises. *)
Definition generate_embedding (text : pystr) : M (list float) :=
  model ← config EMBEDDING_MODEL;
  dims ← config EMBEDDING_DIMENSIONS;
  try_except
    (invoke_model {| modelId := model; inputText := text;
                     dimensions := dims; normalize := true |})
    (fun _ => true)
    (fun e => raise e).

Definition process_chunk (lens_name pillar source_file : string) (chunk : Chunk.t)
  : M ChunkRecord.t :=
  embedding ← generate_embedding (Chunk.text chunk);
  now ← utcnow_isoformat;
  let metadata :=
    Metadata.Make lens_name pillar source_file
      (Chunk.chunk_index chunk) (Chunk.start_char chunk) (Chunk.end_char chunk) now in
  let chunk_id := generate_chunk_id (Chunk.text chunk) metadata in
  mret (ChunkRecord.Make chunk_id (Chunk.text chunk) embedding metadata).

Definition process_document (fuel : nat)
    (source_key lens_name pillar source_file : string) : M (list ChunkRecord.t) :=
  content ← get_source_text source_key;
  chunks ← lift (chunk_text fuel content 800 60);
  for_each (process_chunk lens_name pillar source_file) chunks.

Definition chunk_key (lens_key pillar_key : string) (chunk : ChunkRecord.t) : string :=
  ("embeddings/" ++ lens_key ++ "/" ++ pillar_key ++ "/"
     ++ ChunkRecord.id chunk ++ ".json")%string.

Definition store_vectors (chunks : list ChunkRecord.t) (lens_name pillar : string)
  : M unit :=
  let lens_key := replace_space_hyphen (lower lens_name) in
  let pillar_key := replace_space_hyphen (lower pillar) in
  _ ← for_each (fun chunk =>
         put_object (chunk_key lens_key pillar_key chunk) (ChunkBody chunk)) chunks;
  mret ().

Definition index_key : string := "metadata/index.json".

Definition is_NoSuchKey (e : exn) : bool :=
  match e with NoSuchKey _ => true | _ => false end.

(** [json.loads] of the body, and the first use of it as an index.  (The
    source parses inside the [try]; what parsing raises is no [NoSuchKey],
    so that it passes the [except] clause all the same.) *)
Definition as_index (body : s3_body) : M Index :=
  match body with
  | IndexBody index => mret index
  | ChunkBody _ => raise (KeyError "lenses")
  | MalformedBody e => raise e
  end.

Definition update_index (lens_name pillar : string) (chunk_count : Z) : M unit :=
  index ← try_except
             (body ← get_object index_key; mret (Some body))
             is_NoSuchKey
             (fun _ => mret None);
  index ← match index with
           | Some body => as_index body
           | None => mret (∅ : Index)
           end;
  let index :=
    if bool_decide (lens_name ∈ dom index) then index
    else <[lens_name := ∅]> index in
  now ← utcnow_isoformat;
  let index :=
    <[lens_name := <[pillar := IndexEntry.Make chunk_count now]>
                     (index !!! lens_name)]> index in
  put_object index_key (IndexBody index).

(** *** The handler *)

Record Response := {
  statusCode : Z;
  body : pystr
}.

(** [str(e)] *)
Definition str_exn (e : exn) : pystr :=
  match e with
  | OverflowError => py "int too large to convert to float"
  | KeyError key => py "'" ++ py key ++ py "'"
  | NoSuchKey msg => py msg
  | ClientError msg => py msg
  end.

(** [event[key]], for an event that is an object with text fields. *)
Definition event_get (event : gmap string string) (key : string) : M string :=
  match event !! key with
  | Some v => mret v
  | None => raise (KeyError key)
  end.

(** The body of the [try]: the chunks the run created. *)
Definition run (fuel : nat) (event : gmap string string) : M (list ChunkRecord.t) :=
  source_key ← event_get event "source_key";
  lens_name ← event_get event "lens_name";
  pillar ← event_get event "pillar";
  source_file ← event_get event "source_file";
  chunks ← process_document fuel source_key lens_name pillar source_file;
  _ ← store_vectors chunks lens_name pillar;
  _ ← update_index lens_name pillar (len chunks);
  mret chunks.

Definition success (chunks : list ChunkRecord.t) : Response :=
  {| statusCode := 200;
     body := json_dumps false
               [ ("message"%string, JStr (py "Document processed successfully"));
                 ("chunks_created"%string, JInt (len chunks)) ] |}.

Definition failure (e : exn) : Response :=
  {| statusCode := 500;
     body := json_dumps false [ ("error"%string, JStr (str_exn e)) ] |}.

Definition handler (fuel : nat) (event : gmap string string) : M Response :=
  try_except
    (chunks ← run fuel event; mret (success chunks))
    (fun _ => true)
    (fun e => mret (failure e)).

(** ** Vocabulary of the specification *)

(** The index that the vectors bucket holds, if it holds one. *)
Definition stored_index (w : World) : option Index :=
  match vectors w !! index_key with
  | Some (IndexBody index) => Some index
  | _ => None
  end.

Definition index_entry (w : World) (lens_name pillar : string)
  : option IndexEntry.t :=
  index ← stored_index w; pillars ← index !! lens_name; pillars !! pillar.

(** The index object is absent, or is an index. *)
Definition index_readable (w : World) : Prop :=
  match vectors w !! index_key with
  | None | Some (IndexBody _) => True
  | _ => False
  end.

(** The vectors bucket answers every call. *)
Definition no_vectors_faults (w : World) : Prop :=
  forall n key, vectors_get_fault w n key = None /\ vectors_put_fault w n key = None.

(** Two worlds with the same configuration and the same services. *)
Definition same_env (w w' : World) : Prop :=
  EMBEDDING_MODEL w' = EMBEDDING_MODEL w
  /\ EMBEDDING_DIMENSIONS w' = EMBEDDING_DIMENSIONS w
  /\ source_object w' = source_object w
  /\ vectors_get_fault w' = vectors_get_fault w
  /\ vectors_put_fault w' = vectors_put_fault w
  /\ bedrock w' = bedrock w
  /\ clock w' = clock w.

(** The bucket after the chunk objects of [chunks] have been written, in
    order. *)
Definition put_chunks (lens_name pillar : string) (chunks : list ChunkRecord.t)
    (v : gmap string s3_body) : gmap string s3_body :=
  foldl (fun v chunk =>
           <[chunk_key (replace_space_hyphen (lower lens_name))
                       (replace_space_hyphen (lower pillar)) chunk
             := ChunkBody chunk]> v) v chunks.

(** The request that [generate_embedding] sends for a text. *)
Definition embed_request (w : World) (text : pystr) : EmbedRequest :=
  {| modelId := EMBEDDING_MODEL w; inputText := text;
     dimensions := EMBEDDING_DIMENSIONS w; normalize := true |}.

(** The chunks are strictly ordered by [start_char]. *)
Definition ordered_by_start (chunks : list Chunk.t) : Prop :=
  forall (i j : nat) ci cj,
    chunks !! i = Some ci -> chunks !! j = Some cj -> (i < j)%nat ->
    Chunk.start_char ci < Chunk.start_char cj.

(** The half-open ranges of the chunks cover [[0, n)]. *)
Definition covers (chunks : list Chunk.t) (n : Z) : Prop :=
  forall p, 0 <= p < n ->
    exists c, c ∈ chunks /\ Chunk.start_char c <= p < Chunk.end_char c.

(** No gap between one chunk and the next: the first range begins at
    [start], and every later one begins no later than its predecessor ends. *)
Definition chained_from (chunks : list Chunk.t) (start : Z) : Prop :=
  (forall c, chunks !! 0%nat = Some c -> Chunk.start_char c = start)
  /\ forall (i : nat) c c',
       chunks !! i = Some c -> chunks !! S i = Some c' ->
       Chunk.start_char c' <= Chunk.end_char c.

(** The [chunk_index] values are [0 .. n-1], in order. *)
Definition indexed_in_order (chunks : list Chunk.t) : Prop :=
  forall (i : nat) c, chunks !! i = Some c -> Chunk.chunk_index c = Z.of_nat i.

(** The loop leaves, normally or by an exception. *)
Definition terminates (text : pystr) (chunk_size overlap : Z) : Prop :=
  exists fuel r, chunk_text fuel text chunk_size overlap = Some r.

(** The record that [process_document] assembles for a chunk, given the
    embedding and the reading of the clock. *)
Definition chunk_record (lens_name pillar source_file : string) (chunk : Chunk.t)
    (embedding : list float) (now : string) : ChunkRecord.t :=
  let metadata :=
    Metadata.Make lens_name pillar source_file
      (Chunk.chunk_index chunk) (Chunk.start_char chunk) (Chunk.end_char chunk) now in
  ChunkRecord.Make (generate_chunk_id (Chunk.text chunk) metadata)
    (Chunk.text chunk) embedding metadata.

(** Nothing but the call counter has changed. *)
Definition read_only (w w' : World) : Prop :=
  same_env w w' /\ vectors w' = vectors w.

(** Wherever the computation ends, its final world is related to the
    initial one. *)
Definition respects {A} (R : World -> World -> Prop) (m : M A) : Prop :=
  forall w,
    match m w with
    | Return _ w' | Throw _ w' => R w w'
    | Diverge => True
    end.

(** The computation ends whatever the world. *)
Definition total {A} (m : M A) : Prop := forall w, m w ≠ Diverge.

(** The index after one update. *)
Definition updated_index (index : Index) (lens_name pillar : string)
    (chunk_count : Z) (now : string) : Index :=
  <[lens_name := <[pillar := IndexEntry.Make chunk_count now]>
                   (default ∅ (index !! lens_name))]> index.

(** Fuel that lets the chunker finish on the document of the event. *)
Definition enough_fuel (event : gmap string string) (w : World) : nat :=
  match event !! "source_key"%string with
  | Some source_key =>
      match source_object w (calls w) source_key with
      | Ok content => S (length content)
      | Raise _ => O
      end
  | None => O
  end.

(** A sample environment: every source key holds [content], the services
    answer every call, the embedding is always [vector], and the clock
    shows the number of the call in its microseconds. *)
Definition example_clock (n : nat) : string :=
  ("2024-01-01T00:00:00.00000" ++ NilZero.string_of_uint (Nat.to_uint n))%string.

Definition example_world (content : pystr) (vector : list float) : World :=
  {| EMBEDDING_MODEL := "amazon.titan-embed-text-v2:0";
     EMBEDDING_DIMENSIONS := 1024;
     source_object := fun _ _ => Ok content;
     vectors_get_fault := fun _ _ => None;
     vectors_put_fault := fun _ _ => None;
     bedrock := fun _ _ => Ok vector;
     clock := example_clock;
     calls := 0;
     vectors := ∅ |}.

(** The same, with an embedding service that answers its first request of
    a run and throttles from the second on. *)
Definition throttled_world (content : pystr) : World :=
  {| EMBEDDING_MODEL := "amazon.titan-embed-text-v2:0";
     EMBEDDING_DIMENSIONS := 1024;
     source_object := fun _ _ => Ok content;
     vectors_get_fault := fun _ _ => None;
     vectors_put_fault := fun _ _ => None;
     bedrock := fun n _ =>
       if (n <? 3)%nat then Ok [] else Raise (ClientError "ThrottlingException");
     clock := example_clock;
     calls := 0;
     vectors := ∅ |}.

(** The event of the handler's documentation. *)
Definition example_event : gmap string string :=
  {[ "source_key"%string :=
       "wellarchitected/wellarchitected-operational-excellence-pillar.pdf"%string;
     "lens_name"%string := "Well-Architected Framework"%string;
     "pillar"%string := "Operational Excellence"%string;
     "source_file"%string :=
       "wellarchitected-operational-excellence-pillar.pdf"%string ]}.

(** The handler's answer is the 500 response that carries [str(e)]. *)
Definition answers_500 (r : outcome Response) (e : exn) (w' : World) : Prop :=
  exists response,
    r = Return response w'
    /\ statusCode response = 500
    /\ body response = json_dumps false [("error"%string, JStr (str_exn e))].

(** The handler's answer is the 200 response that reports [n] chunks. *)
Definition answers_200 (r : outcome Response) (n : Z) (w' : World) : Prop :=
  exists response,
    r = Return response w'
    /\ statusCode response = 200
    /\ body response
       = json_dumps false
           [("message"%string, JStr (py "Document processed successfully"));
            ("chunks_created"%string, JInt n)].

(** The sample environment with a vectors bucket that takes the writes of
    the first four calls of a run and refuses every later one: for a
    document of one chunk, the write that is refused is that of the index
    object. *)
Definition refused_index_world (content : pystr) : World :=
  {| EMBEDDING_MODEL := "amazon.titan-embed-text-v2:0";
     EMBEDDING_DIMENSIONS := 1024;
     source_object := fun _ _ => Ok content;
     vectors_get_fault := fun _ _ => None;
     vectors_put_fault := fun n _ =>
       if (n <? 4)%nat then None else Some "AccessDenied"%string;
     bedrock := fun _ _ => Ok [];
     clock := example_clock;
     calls := 0;
     vectors := ∅ |}.

(** ** Vocabulary of the further properties *)

(** One of [0-9a-f]. *)
Definition is_hex_digit (a : ascii) : bool :=
  let n := code a in
  ((48 <=? n) && (n <=? 57)) || ((97 <=? n) && (n <=? 102)).

(** A printable ASCII character, from the space to the tilde. *)
Definition printable (a : ascii) : bool :=
  let n := code a in (32 <=? n) && (n <=? 126).

(** An upper-case letter of ASCII. *)
Definition is_ascii_upper (a : ascii) : bool :=
  let n := code a in (65 <=? n) && (n <=? 90).

(** A world whose source bucket has no object at all. *)
Definition empty_source_world : World :=
  {| EMBEDDING_MODEL := "amazon.titan-embed-text-v2:0";
     EMBEDDING_DIMENSIONS := 1024;
     source_object := fun _ _ => Raise (NoSuchKey no_such_key_msg);
     vectors_get_fault := fun _ _ => None;
     vectors_put_fault := fun _ _ => None;
     bedrock := fun _ _ => Ok [];
     clock := example_clock;
     calls := 0;
     vectors := ∅ |}.

(** ** The script that submits the documents
    ([scripts/process_wa_documents.py])

    The Lambda service is a function of the number of the invocation, the
    function name and the payload, answering with a status code or raising;
    the state is the list of the payloads sent so far. *)

Record Lambda := {
  lambda_invoke : nat -> string -> gmap string string -> result Z;
  invoked : list (gmap string string)
}.

(** [lambda_client.invoke(FunctionName=..., InvocationType='Event',
    Payload=json.dumps(doc))['StatusCode']] *)
Definition invoke (function_name : string) (doc : gmap string string) (l : Lambda)
  : result Z * Lambda :=
  (lambda_invoke l (length (invoked l)) function_name doc,
   {| lambda_invoke := lambda_invoke l; invoked := invoked l ++ [doc] |}).

(** The fields that the loop prints before it invokes: a missing one is a
    [KeyError] inside the [try]. *)
Definition printed_fields (doc : gmap string string) : bool :=
  bool_decide (is_Some (doc !! "source_file"%string))
  && bool_decide (is_Some (doc !! "lens_name"%string))
  && bool_decide (is_Some (doc !! "pillar"%string)).

(** The body of the [for] loop, on the two counters. *)
Definition submit (function_name : string) (counters : Z * Z * Lambda)
    (doc : gmap string string) : Z * Z * Lambda :=
  let '(successful, failed, l) := counters in
  if printed_fields doc then
    match invoke function_name doc l with
    | (Ok status, l') =>
        if status =? 202 then (successful + 1, failed, l')
        else (successful, failed + 1, l')
    | (Raise _, l') => (successful, failed + 1, l')
    end
  else (successful, failed + 1, l).

(** [process_documents]: the counters it prints at the end. *)
Definition process_documents (function_name : string)
    (documents : list (gmap string string)) (l : Lambda) : Z * Z * Lambda :=
  foldl (submit function_name) (0, 0, l) documents.

(** * Properties *)

(** ** Python built-ins *)

Lemma len_nonneg {A} (l : list A) : 0 <= len l.
Proof. unfold len. lia. Qed.

Lemma len_app {A} (l k : list A) : len (l ++ k) = len l + len k.
Proof. unfold len. rewrite length_app. lia. Qed.

Lemma slice_index_range n i : 0 <= n -> 0 <= slice_index n i <= n.
Proof. unfold slice_index. destruct (Z.ltb_spec i 0); lia. Qed.

Lemma py_slice_length {A} (l : list A) i j :
  len (py_slice l i j)
  = Z.max 0 (slice_index (len l) j - slice_index (len l) i).
Proof.
  pose proof (slice_index_range (len l) i (len_nonneg l)).
  pose proof (slice_index_range (len l) j (len_nonneg l)).
  unfold py_slice, len in *. rewrite length_take, length_drop. lia.
Qed.

(** A window of non-negative width never holds more characters than its
    width. *)
Lemma py_slice_window {A} (l : list A) i w :
  0 <= w -> len (py_slice l i (i + w)) <= w.
Proof.
  intros Hw. rewrite py_slice_length. pose proof (len_nonneg l).
  unfold slice_index.
  destruct (Z.ltb_spec i 0), (Z.ltb_spec (i + w) 0); lia.
Qed.

(** A slice that starts inside the text and reaches its end is a suffix. *)
Lemma py_slice_suffix {A} (l : list A) i j :
  0 <= i -> len l <= j -> py_slice l i j = drop (Z.to_nat i) l.
Proof.
  intros Hi Hj. unfold py_slice. pose proof (len_nonneg l).
  unfold slice_index.
  destruct (Z.ltb_spec i 0), (Z.ltb_spec j 0); try lia.
  rewrite Z.min_r by lia.
  destruct (Z.le_gt_cases i (len l)).
  - rewrite Z.min_l by lia. apply take_ge. rewrite length_drop. unfold len in *. lia.
  - rewrite Z.min_r by lia. rewrite !drop_ge by (unfold len in *; lia).
    by rewrite take_nil.
Qed.

(** A slice of the first [j] characters. *)
Lemma py_slice_prefix {A} (l : list A) j :
  0 <= j -> py_slice l 0 j = take (Z.to_nat j) l.
Proof.
  intros Hj. unfold py_slice. pose proof (len_nonneg l).
  assert (slice_index (len l) 0 = 0) as ->
    by (unfold slice_index; destruct (Z.ltb_spec 0 0); lia).
  assert (slice_index (len l) j = Z.min j (len l)) as ->
    by (unfold slice_index; destruct (Z.ltb_spec j 0); lia).
  rewrite drop_0, Z.sub_0_r.
  destruct (Z.le_gt_cases j (len l)).
  - by rewrite Z.min_l by lia.
  - rewrite Z.min_r by lia. rewrite !take_ge; unfold len in *; try lia. done.
Qed.

Lemma rfind_range c s : -1 <= rfind c s < len s.
Proof.
  induction s as [|a s IH]; simpl; [unfold len; simpl; lia|].
  unfold len in *. simpl length.
  destruct (Z.leb_spec 0 (rfind c s)); [lia|].
  case_bool_decide; lia.
Qed.

Lemma rfind_absent c s : c ∉ s -> rfind c s = -1.
Proof.
  induction s as [|a s IH]; simpl; [done|].
  intros Hn. apply not_elem_of_cons in Hn as [Hne Hn].
  rewrite (IH Hn). simpl. case_bool_decide; congruence.
Qed.

(** [rfind] searches the right part first. *)
Lemma rfind_app c s1 s2 :
  rfind c (s1 ++ s2)
  = if 0 <=? rfind c s2 then len s1 + rfind c s2 else rfind c s1.
Proof.
  induction s1 as [|a s1 IH]; simpl.
  - pose proof (rfind_range c s2). unfold len. simpl.
    destruct (Z.leb_spec 0 (rfind c s2)); lia.
  - rewrite IH. unfold len. simpl length.
    pose proof (rfind_range c s1).
    destruct (Z.leb_spec 0 (rfind c s2)).
    + destruct (Z.leb_spec 0 (Z.of_nat (length s1) + rfind c s2)); lia.
    + done.
Qed.

(** ** Binary64 rounding *)

(** Rounding to 53 bits moves a number by at most one part in [2 ^ 52]. *)
Lemma round53_spec m q s :
  0 <= m -> round53 m = (q, s) ->
  0 <= s /\ m * (2 ^ 52 - 1) <= q * 2 ^ s * 2 ^ 52 <= m * (2 ^ 52 + 1).
Proof.
  intros Hm. unfold round53.
  destruct (Z.leb_spec (Z.log2 m) 52) as [Hl|Hl].
  - intros [= <- <-]. change (2 ^ 0) with 1. lia.
  - set (t := Z.log2 m - 52).
    assert (0 < m) as Hpos.
    { destruct (Z.eq_dec m 0) as [->|]; [|lia]. by compute in Hl. }
    destruct (Z.log2_spec m Hpos) as [Hlo _].
    assert (0 < t) as Ht by (unfold t; lia).
    assert (2 ^ Z.log2 m = 2 ^ t * 2 ^ 52) as Hpow.
    { rewrite <- Z.pow_add_r by lia. f_equal. unfold t. lia. }
    assert (0 < 2 ^ t) as HP by (apply Z.pow_pos_nonneg; lia).
    rewrite Z.shiftr_div_pow2 by lia.
    pose proof (Z.div_mod m (2 ^ t) ltac:(lia)) as Hdm.
    pose proof (Z.mod_pos_bound m (2 ^ t) HP) as Hr.
    set (q0 := m / 2 ^ t) in *. set (r := m mod 2 ^ t) in *.
    set (P := 2 ^ t) in *.
    intros [= <- <-]. split; [lia|].
    destruct ((2 ^ (t - 1) <? r) || ((r =? 2 ^ (t - 1)) && Z.odd q0)).
    + replace ((q0 + 1) * P * 2 ^ 52) with ((m - r + P) * 2 ^ 52) by lia. lia.
    + replace (q0 * P * 2 ^ 52) with ((m - r) * 2 ^ 52) by lia. lia.
Qed.

Lemma float_of_int_pos n :
  0 < n < 2 ^ 1023 ->
  exists q s, float_of_int n = Some (Float q s)
    /\ 0 <= s /\ n * (2 ^ 52 - 1) <= q * 2 ^ s * 2 ^ 52.
Proof.
  intros Hn. unfold float_of_int. rewrite Z.abs_eq by lia.
  destruct (round53 n) as [q s] eqn:E.
  destruct (round53_spec n q s ltac:(lia) E) as (Hs & Hlo & Hhi).
  destruct (Z.leb_spec (2 ^ 1024) (q * 2 ^ s)) as [Hbig|_].
  - exfalso. assert (2 ^ 1024 = 2 * 2 ^ 1023) as Hp by reflexivity. lia.
  - exists q, s. rewrite Z.sgn_pos by lia. rewrite Z.mul_1_l. done.
Qed.

(** The three roundings of [n * 0.7] chained, with the powers of two
    abstracted. *)
Lemma scaled_chain n bp qn q A B :
  0 < n -> 0 < A -> 0 < B ->
  n * (2 ^ 52 - 1) <= qn * B * 2 ^ 52 ->
  qn * 3152519739159347 * (2 ^ 52 - 1) <= q * A * 2 ^ 52 ->
  q * (A * B) < bp * 2 ^ 52 ->
  2 * n < 3 * bp.
Proof.
  intros Hn HA HB H1 H2 H3.
  change (2 ^ 52) with 4503599627370496 in *.
  change (4503599627370496 - 1) with 4503599627370495 in *.
  apply (Z.mul_le_mono_nonneg_r _ _ (3152519739159347 * 4503599627370495)) in H1; [|lia].
  apply (Z.mul_le_mono_nonneg_r _ _ (B * 4503599627370496)) in H2; [|lia].
  apply (Z.mul_lt_mono_pos_r (4503599627370496 * 4503599627370496)) in H3; [|lia].
  set (X := qn * B) in *. set (Y := q * (A * B)) in *.
  replace (qn * 3152519739159347 * 4503599627370495 * (B * 4503599627370496))
    with (X * (3152519739159347 * 4503599627370495 * 4503599627370496)) in H2
    by (unfold X; ring).
  replace (q * A * 4503599627370496 * (B * 4503599627370496))
    with (Y * (4503599627370496 * 4503599627370496)) in H2 by (unfold Y; ring).
  lia.
Qed.

(** Any break point that passes the 70% test of a positive window lies
    beyond two thirds of the window. *)
Lemma int_gt_threshold n w bp :
  0 < n -> float_of_int n = Some w ->
  int_gt_float bp (float_mul w float_0_7) = true ->
  2 * n < 3 * bp.
Proof.
  intros Hn. unfold float_of_int. rewrite Z.abs_eq by lia.
  destruct (round53 n) as [qn sn] eqn:En.
  destruct (round53_spec n qn sn ltac:(lia) En) as (Hsn & Hlon & _).
  destruct (2 ^ 1024 <=? qn * 2 ^ sn); [done|].
  intros [= <-]. rewrite Z.sgn_pos, Z.mul_1_l by lia.
  assert (0 < 2 ^ sn) as HPn by (apply Z.pow_pos_nonneg; lia).
  assert (0 < qn) as Hqn by nia.
  unfold float_mul, float_0_7. cbn [fmant fexp].
  assert (0 < qn * 3152519739159347) as Hp by lia.
  rewrite Z.abs_eq, Z.sgn_pos by lia.
  destruct (round53 (qn * 3152519739159347)) as [q s] eqn:E.
  destruct (round53_spec (qn * 3152519739159347) q s ltac:(lia) E) as (Hs & Hlo & _).
  rewrite Z.mul_1_l. unfold int_gt_float. cbn [fmant fexp].
  assert (0 < 2 ^ s) as HP by (apply Z.pow_pos_nonneg; lia).
  intros Hgt.
  apply (scaled_chain n bp qn q (2 ^ s) (2 ^ sn)); try done.
  destruct (Z.leb_spec 0 (s + sn + -52)) as [He|He]; apply Z.ltb_lt in Hgt.
  - assert (2 ^ s * 2 ^ sn = 2 ^ (s + sn + -52) * 2 ^ 52) as ->.
    { rewrite <- !Z.pow_add_r by lia. f_equal. lia. }
    rewrite Z.mul_assoc. apply Z.mul_lt_mono_pos_r; [done|exact Hgt].
  - assert (2 ^ 52 = 2 ^ (- (s + sn + -52)) * (2 ^ s * 2 ^ sn)) as ->.
    { rewrite <- !Z.pow_add_r by lia. f_equal. lia. }
    rewrite (Z.mul_assoc bp). apply Z.mul_lt_mono_pos_r; [lia|exact Hgt].
Qed.

(** The default window: [3200 * 0.7] is exactly [2240.0]. *)
Lemma float_of_int_3200 : float_of_int 3200 = Some (Float 3200 0).
Proof. vm_compute. reflexivity. Qed.

Lemma int_gt_threshold_3200 bp :
  int_gt_float bp (float_mul (Float 3200 0) float_0_7) = (2240 <? bp).
Proof.
  assert (float_mul (Float 3200 0) float_0_7 = Float 4925812092436480 (-41)) as ->
    by (vm_compute; reflexivity).
  unfold int_gt_float. cbn [fmant fexp].
  change (0 <=? -41) with false. change (2 ^ (- -41)) with 2199023255552.
  destruct (Z.ltb_spec 2240 bp), (Z.ltb_spec 4925812092436480 (bp * 2199023255552)); lia.
Qed.

(** ** The loop of the chunker *)

Section loop.
Variables (text : pystr) (W O : Z).

(** The accumulator only prefixes what the loop appends. *)
Lemma chunk_loop_acc fuel acc s i :
  chunk_loop fuel text W O acc s i
  = match chunk_loop fuel text W O [] s i with
    | Some (Ok l) => Some (Ok (acc ++ l))
    | r => r
    end.
Proof.
  revert acc s i. induction fuel as [|fuel IH]; intros acc s i; simpl; [done|].
  destruct (s <? len text); [|by rewrite app_nil_r].
  destruct (window_end text W s) as [e|e]; [|done].
  rewrite (IH (acc ++ _)), (IH [_]).
  destruct (chunk_loop fuel text W O [] _ _) as [[l|]|]; try done.
  by rewrite <- app_assoc.
Qed.

Lemma chunk_loop_step fuel s i :
  chunk_loop (S fuel) text W O [] s i
  = if s <? len text then
      match window_end text W s with
      | Raise e => Some (Raise e)
      | Ok e =>
          match chunk_loop fuel text W O [] (e - O) (i + 1) with
          | Some (Ok l) =>
              Some (Ok (Chunk.Make (strip (py_slice text s e)) i s e :: l))
          | r => r
          end
      end
    else Some (Ok []).
Proof.
  simpl. destruct (s <? len text); [|done].
  destruct (window_end text W s) as [e|e]; [|done].
  by rewrite chunk_loop_acc.
Qed.

Lemma chunk_loop_sound fuel s i l :
  chunk_loop fuel text W O [] s i = Some (Ok l) -> loop_chunks text W O s i l.
Proof.
  revert s i l. induction fuel as [|fuel IH]; intros s i l; [done|].
  rewrite chunk_loop_step.
  destruct (Z.ltb_spec s (len text)) as [Hlt|Hge].
  - destruct (window_end text W s) as [e|e] eqn:He; [|done].
    destruct (chunk_loop fuel text W O [] _ _) as [[l'|]|] eqn:Hl; try done.
    intros [= <-]. apply loop_iter; auto.
  - intros [= <-]. by apply loop_exit.
Qed.

(** One unit of fuel per chunk, and one for the exit test. *)
Lemma chunk_loop_complete s i l :
  loop_chunks text W O s i l ->
  chunk_loop (S (length l)) text W O [] s i = Some (Ok l).
Proof.
  induction 1 as [s i Hge|s i e l Hlt He _ IH]; rewrite chunk_loop_step.
  - destruct (Z.ltb_spec s (len text)); [lia|done].
  - destruct (Z.ltb_spec s (len text)); [|lia].
    rewrite He. simpl length. by rewrite IH.
Qed.

Lemma chunk_loop_fuel_mono fuel fuel' acc s i r :
  chunk_loop fuel text W O acc s i = Some r -> (fuel <= fuel')%nat ->
  chunk_loop fuel' text W O acc s i = Some r.
Proof.
  revert fuel' acc s i. induction fuel as [|fuel IH]; intros fuel' acc s i; [done|].
  intros Hr Hle. destruct fuel' as [|fuel']; [lia|]. simpl in *.
  destruct (s <? len text); [|done].
  destruct (window_end text W s); [|done].
  apply IH; [done|lia].
Qed.

(** What every chunk of a run records. *)
Lemma loop_chunks_elem s i l c :
  loop_chunks text W O s i l -> c ∈ l ->
  Chunk.start_char c < len text
  /\ window_end text W (Chunk.start_char c) = Ok (Chunk.end_char c)
  /\ Chunk.text c
     = strip (py_slice text (Chunk.start_char c) (Chunk.end_char c)).
Proof.
  induction 1 as [|s i e l Hlt He _ IH]; intros Hc.
  - by apply elem_of_nil in Hc.
  - apply elem_of_cons in Hc as [->|Hc]; [done|auto].
Qed.

Lemma loop_chunks_indices s i l (k : nat) c :
  loop_chunks text W O s i l -> l !! k = Some c ->
  Chunk.chunk_index c = i + Z.of_nat k.
Proof.
  intros Hl. revert k. induction Hl as [|s i e l Hlt He _ IH]; intros k Hk; [done|].
  destruct k as [|k]; simpl in Hk.
  - injection Hk as <-. simpl. lia.
  - rewrite (IH k Hk). lia.
Qed.

Lemma loop_chunks_head s i l c :
  loop_chunks text W O s i l -> l !! 0%nat = Some c -> Chunk.start_char c = s.
Proof. destruct 1; [done|]. by intros [= <-]. Qed.

(** *** Runs in which every iteration moves the start forward *)

Hypothesis progress :
  forall s e, s < len text -> window_end text W s = Ok e -> s < e - O.

(** With progress the loop cannot go round more often than the text has
    characters left. *)
Lemma chunk_loop_terminates s i :
  exists r, chunk_loop (S (Z.to_nat (len text - s))) text W O [] s i = Some r.
Proof.
  remember (Z.to_nat (len text - s)) as n eqn:Hn.
  revert s i Hn. induction (lt_wf n) as [n _ IH]; intros s i ->.
  rewrite chunk_loop_step.
  destruct (Z.ltb_spec s (len text)) as [Hlt|Hge]; [|eauto].
  destruct (window_end text W s) as [e|e] eqn:He; [|eauto].
  pose proof (progress s e Hlt He) as Hp.
  destruct (IH (Z.to_nat (len text - (e - O))) ltac:(lia) (e - O) (i + 1) eq_refl)
    as [r Hr].
  apply chunk_loop_fuel_mono with (fuel' := Z.to_nat (len text - s)) in Hr; [|lia].
  rewrite Hr. destruct r; eauto.
Qed.

Lemma loop_chunks_lower s i l c :
  loop_chunks text W O s i l -> c ∈ l -> s <= Chunk.start_char c.
Proof.
  induction 1 as [|s i e l Hlt He _ IH]; intros Hc.
  - by apply elem_of_nil in Hc.
  - apply elem_of_cons in Hc as [->|Hc]; [simpl; lia|].
    specialize (IH Hc). pose proof (progress s e Hlt He). lia.
Qed.

Lemma loop_chunks_ordered s i l :
  loop_chunks text W O s i l -> ordered_by_start l.
Proof.
  induction 1 as [|s i e l Hlt He Hl IH]; intros a b ca cb Ha Hb Hab; [done|].
  destruct b as [|b]; [lia|]. simpl in Hb.
  destruct a as [|a]; simpl in Ha.
  - injection Ha as <-. simpl.
    pose proof (loop_chunks_lower _ _ _ cb Hl
                  ltac:(by eapply list_elem_of_lookup_2)).
    pose proof (progress s e Hlt He). lia.
  - apply (IH a b); [done|done|lia].
Qed.

(** *** ... and the overlap is not negative *)

Hypothesis overlap_nonneg : 0 <= O.

Lemma loop_chunks_covers s i l p :
  loop_chunks text W O s i l -> s <= p < len text ->
  exists c, c ∈ l /\ Chunk.start_char c <= p < Chunk.end_char c.
Proof.
  induction 1 as [|s i e l Hlt He _ IH]; intros Hp; [lia|].
  destruct (Z.lt_ge_cases p e) as [Hpe|Hpe].
  - eexists. split; [apply list_elem_of_here|]. simpl. lia.
  - destruct IH as (c & Hc & Hr); [lia|].
    exists c. split; [by apply list_elem_of_further|done].
Qed.

Lemma loop_chunks_chained s i l :
  loop_chunks text W O s i l -> chained_from l s.
Proof.
  induction 1 as [|s i e l Hlt He Hl [_ IH]]; [done|].
  split; [by intros c [= <-]|].
  intros [|k] c c' Hc Hc'; simpl in Hc, Hc'.
  - injection Hc as <-. simpl.
    rewrite (loop_chunks_head _ _ _ c' Hl Hc'). lia.
  - by apply (IH k).
Qed.

(** The run ends only when the last window reaches the end of the text
    with the overlap to spare. *)
Lemma loop_chunks_last s i l c :
  loop_chunks text W O s i l -> last l = Some c ->
  len text <= Chunk.end_char c - O.
Proof.
  induction 1 as [|s i e l Hlt He Hl IH]; [done|].
  destruct l as [|c' l]; simpl.
  - intros [= <-]. simpl. by inversion Hl.
  - intros Hlast. by apply IH.
Qed.
End loop.

(** ** One window *)

Lemma py_slice_elem {A} (l : list A) i j x : x ∈ py_slice l i j -> x ∈ l.
Proof.
  unfold py_slice. intros Hx.
  by apply (subseteq_drop (Z.to_nat (slice_index (len l) i))),
           (subseteq_take (Z.to_nat (slice_index (len l) j - slice_index (len l) i))).
Qed.

(** A window that reaches the end of the text keeps its hard boundary. *)
Lemma window_end_past text W s :
  len text <= s + W -> window_end text W s = Ok (s + W).
Proof.
  intros H. unfold window_end. by destruct (Z.ltb_spec (s + W) (len text)); [lia|].
Qed.

Lemma break_point_range text W s :
  0 <= W ->
  -1 <= Z.max (rfind "."%char (py_slice text s (s + W)))
              (rfind "010"%char (py_slice text s (s + W))) < W.
Proof.
  intros HW. pose proof (py_slice_window text s W HW).
  pose proof (rfind_range "."%char (py_slice text s (s + W))).
  pose proof (rfind_range "010"%char (py_slice text s (s + W))). lia.
Qed.

(** The boundary is never moved forward. *)
Lemma window_end_upper text W s e :
  0 <= W -> window_end text W s = Ok e -> e <= s + W.
Proof.
  intros HW. unfold window_end. pose proof (break_point_range text W s HW).
  destruct (s + W <? len text); [|intros [= <-]; lia].
  destruct (float_of_int W) as [w|]; [|done].
  destruct (int_gt_float _ _); intros [= <-]; lia.
Qed.

(** While the overlap is at most two thirds of a positive window, every
    iteration moves the start forward. *)
Lemma window_end_progress text W O s e :
  0 < W -> 3 * O <= 2 * W -> window_end text W s = Ok e -> s < e - O.
Proof.
  intros HW HO. unfold window_end.
  destruct (s + W <? len text); [|intros [= <-]; lia].
  destruct (float_of_int W) as [w|] eqn:Hw; [|done].
  destruct (int_gt_float _ _) eqn:Hgt; intros [= <-]; [|lia].
  pose proof (int_gt_threshold W w _ HW Hw Hgt). lia.
Qed.

(** The default window of 3200 characters: the boundary stays within the
    last 30% of the window. *)
Lemma window_end_3200 text s :
  exists e, window_end text 3200 s = Ok e /\ s + 2242 <= e <= s + 3200.
Proof.
  unfold window_end. pose proof (break_point_range text 3200 s ltac:(lia)).
  destruct (s + 3200 <? len text); [|eexists; split; [done|lia]].
  rewrite float_of_int_3200, int_gt_threshold_3200.
  destruct (Z.ltb_spec 2240 (Z.max (rfind "."%char (py_slice text s (s + 3200)))
                                   (rfind "010"%char (py_slice text s (s + 3200)))));
    eexists; (split; [done|lia]).
Qed.

Lemma window_end_3200_progress text s e :
  s < len text -> window_end text 3200 s = Ok e -> s < e - 240.
Proof.
  intros _ He. destruct (window_end_3200 text s) as (e' & He' & Hr).
  rewrite He in He'. injection He' as <-. lia.
Qed.

(** Without a period or a newline there is nothing to snap to. *)
Lemma window_end_3200_plain text s :
  "."%char ∉ text -> "010"%char ∉ text -> window_end text 3200 s = Ok (s + 3200).
Proof.
  intros Hp Hn. unfold window_end.
  destruct (s + 3200 <? len text); [|done].
  rewrite float_of_int_3200, int_gt_threshold_3200.
  rewrite !rfind_absent by (intros ?%py_slice_elem; done). done.
Qed.

(** ** The default configuration *)

(** The default window is far from the overflow of [float]. *)
Lemma chunk_loop_3200_no_raise fuel text s i e :
  chunk_loop fuel text 3200 240 [] s i ≠ Some (Raise e).
Proof.
  revert s i. induction fuel as [|fuel IH]; intros s i; [done|].
  rewrite chunk_loop_step. destruct (s <? len text); [|done].
  destruct (window_end_3200 text s) as (e' & -> & _).
  specialize (IH (e' - 240) (i + 1)).
  by destruct (chunk_loop fuel text 3200 240 [] _ _) as [[|]|].
Qed.

(** With the default sizes the loop leaves normally, within one iteration
    per character and one more for the exit test. *)
Lemma chunk_text_default_runs text :
  exists chunks,
    chunk_text (S (length text)) text 800 60 = Some (Ok chunks)
    /\ loop_chunks text 3200 240 0 0 chunks.
Proof.
  unfold chunk_text. change (800 * 4) with 3200. change (60 * 4) with 240.
  destruct (chunk_loop_terminates text 3200 240 (window_end_3200_progress text) 0 0)
    as [r Hr].
  rewrite Z.sub_0_r in Hr. unfold len in Hr. rewrite Nat2Z.id in Hr.
  destruct r as [chunks|e].
  - exists chunks. split; [done|]. by eapply chunk_loop_sound.
  - by apply chunk_loop_3200_no_raise in Hr.
Qed.

(** C3. For every input text, under the default configuration
    ([chunk_size=800], [overlap=60]), [chunk_text] returns a chunk sequence
    that is strictly ordered by [start_char], in which every chunk has
    [end_char > start_char], whose half-open ranges cover [[0, len(text))]
    and leave no gap between one chunk and the next, and whose
    [chunk_index] values are exactly [0 .. n-1] in order. *)
Theorem chunk_text_default_sequence (text : pystr) :
  exists chunks,
    chunk_text (S (length text)) text 800 60 = Some (Ok chunks)
    /\ ordered_by_start chunks
    /\ Forall (fun c => Chunk.start_char c < Chunk.end_char c) chunks
    /\ covers chunks (len text)
    /\ chained_from chunks 0
    /\ indexed_in_order chunks.
Proof.
  destruct (chunk_text_default_runs text) as (chunks & Hrun & Hl).
  exists chunks. split; [done|].
  pose proof (window_end_3200_progress text) as Hprog.
  split; [by eapply loop_chunks_ordered|].
  split.
  { apply Forall_forall. intros c Hc.
    destruct (loop_chunks_elem _ _ _ _ _ _ c Hl Hc) as (_ & He & _).
    destruct (window_end_3200 text (Chunk.start_char c)) as (e & He' & Hr).
    rewrite He in He'. injection He' as <-. lia. }
  split.
  { intros p Hp. by eapply (loop_chunks_covers text 3200 240 ltac:(lia)). }
  split; [by eapply (loop_chunks_chained text 3200 240 ltac:(lia))|].
  intros i c Hc. rewrite (loop_chunks_indices _ _ _ _ _ _ i c Hl Hc). lia.
Qed.

(** ** Boundary snapping under the default configuration *)

(** The window [text[0:3200]] of a text that has a character at 2800,
    split around that character. *)
Lemma first_window_split (text : pystr) x :
  len text = 4000 -> text !! 2800%nat = Some x ->
  py_slice text 0 3200
  = take 2800 text ++ [x] ++ py_slice text 2801 3200.
Proof.
  intros Hlen Hx. rewrite py_slice_prefix by lia.
  unfold py_slice. rewrite Hlen.
  change (slice_index 4000 2801) with 2801. change (slice_index 4000 3200) with 3200.
  change (Z.to_nat (3200 - 2801)) with 399%nat.
  change (Z.to_nat 2801) with 2801%nat. change (Z.to_nat 3200) with 3200%nat.
  rewrite <- (take_drop_middle text 2800 x Hx) at 1.
  rewrite take_app, length_take.
  assert (length text = 4000%nat) as -> by (unfold len in Hlen; lia).
  change (3200 - 2800 `min` 4000)%nat with 400%nat.
  rewrite take_take. change (3200 `min` 2800)%nat with 2800%nat. done.
Qed.

(** If the last period or newline of the first window is at 2800, that is
    the break point. *)
Lemma first_window_break_point (text : pystr) :
  len text = 4000 ->
  (text !! 2800%nat = Some "."%char \/ text !! 2800%nat = Some "010"%char) ->
  "."%char ∉ py_slice text 2801 3200 ->
  "010"%char ∉ py_slice text 2801 3200 ->
  Z.max (rfind "."%char (py_slice text 0 3200))
        (rfind "010"%char (py_slice text 0 3200)) = 2800.
Proof.
  intros Hlen Hx Hp Hn.
  assert (len (take 2800 text) = 2800) as Hpre.
  { unfold len in *. rewrite length_take. lia. }
  pose proof (rfind_range "."%char (take 2800 text)).
  pose proof (rfind_range "010"%char (take 2800 text)).
  destruct Hx as [Hx|Hx]; rewrite (first_window_split text _ Hlen Hx);
    rewrite !(rfind_app _ (take 2800 text)), !(rfind_app _ [_]),
            (rfind_absent _ _ Hp), (rfind_absent _ _ Hn), Hpre;
    simpl; lia.
Qed.

Lemma loop_chunks_3200_plain text s i l (k : nat) c :
  "."%char ∉ text -> "010"%char ∉ text ->
  loop_chunks text 3200 240 s i l -> l !! k = Some c ->
  Chunk.start_char c = s + 2960 * Z.of_nat k
  /\ Chunk.end_char c = Chunk.start_char c + 3200.
Proof.
  intros Hp Hn Hl. revert k.
  induction Hl as [|s i e l Hlt He _ IH]; intros k Hk; [done|].
  rewrite (window_end_3200_plain text s Hp Hn) in He. injection He as <-.
  destruct k as [|k]; simpl in Hk.
  - injection Hk as <-. simpl. lia.
  - destruct (IH k Hk) as [-> ->]. lia.
Qed.

(** C4. Boundary snapping behaves as specified under the default
    configuration (window 3200 characters, overlap 240): for a
    4000-character text whose last period or newline within the first
    window is at character 2800, the first chunk's [end_char] is 2801; and
    for any text containing no periods and no newlines, every window ends
    exactly at the hard boundary [start + 3200] and consecutive starts
    differ by exactly 2960 characters. *)
Theorem boundary_snapping (text : pystr) :
  (len text = 4000 ->
   (text !! 2800%nat = Some "."%char \/ text !! 2800%nat = Some "010"%char) ->
   "."%char ∉ py_slice text 2801 3200 ->
   "010"%char ∉ py_slice text 2801 3200 ->
   exists c chunks,
     chunk_text (S (length text)) text 800 60 = Some (Ok (c :: chunks))
     /\ Chunk.start_char c = 0 /\ Chunk.end_char c = 2801)
  /\ ("."%char ∉ text -> "010"%char ∉ text ->
      exists chunks,
        chunk_text (S (length text)) text 800 60 = Some (Ok chunks)
        /\ forall (i : nat) c, chunks !! i = Some c ->
             Chunk.start_char c = 2960 * Z.of_nat i
             /\ Chunk.end_char c = Chunk.start_char c + 3200).
Proof.
  destruct (chunk_text_default_runs text) as (chunks & Hrun & Hl). split.
  - intros Hlen Hx Hp Hn.
    inversion Hl as [? ? Hge|? ? e l Hlt He Hl']; subst; [lia|].
    eexists _, l. split; [done|]. split; [done|]. simpl.
    unfold window_end in He. change (0 + 3200) with 3200 in He.
    rewrite Hlen in He. change (3200 <? 4000) with true in He. cbv iota in He.
    rewrite (first_window_break_point text Hlen Hx Hp Hn) in He.
    rewrite float_of_int_3200, int_gt_threshold_3200 in He.
    by injection He as <-.
  - intros Hp Hn. exists chunks. split; [done|]. intros i c Hc.
    destruct (loop_chunks_3200_plain text 0 0 chunks i c Hp Hn Hl Hc) as [-> ->]. lia.
Qed.

(** A text of 2800 letters, a period, and 1199 letters; and a text of 4500
    letters. *)
Lemma boundary_snapping_witness :
  (exists c chunks,
     chunk_text 4001 (replicate 2800 "a"%char ++ ["."%char] ++ replicate 1199 "a"%char)
       800 60 = Some (Ok (c :: chunks))
     /\ Chunk.start_char c = 0 /\ Chunk.end_char c = 2801)
  /\ (exists chunks,
        chunk_text 4501 (replicate 4500 "a"%char) 800 60 = Some (Ok chunks)
        /\ forall (i : nat) c, chunks !! i = Some c ->
             Chunk.start_char c = 2960 * Z.of_nat i
             /\ Chunk.end_char c = Chunk.start_char c + 3200).
Proof.
  split.
  - apply (proj1 (boundary_snapping
                    (replicate 2800 "a"%char ++ ["."%char] ++ replicate 1199 "a"%char))).
    + vm_compute. reflexivity.
    + left. vm_compute. reflexivity.
    + apply (bool_decide_unpack _). vm_compute. reflexivity.
    + apply (bool_decide_unpack _). vm_compute. reflexivity.
  - apply (proj2 (boundary_snapping (replicate 4500 "a"%char))).
    + apply (bool_decide_unpack _). vm_compute. reflexivity.
    + apply (bool_decide_unpack _). vm_compute. reflexivity.
Defined.

(** ** The end of the last window *)

(** C9. The final chunk's [end_char] is not clamped to the document
    length: whenever the text remaining at a window start is shorter than
    the window (so that no boundary snap applies), the recorded [end_char]
    is [start + char_chunk_size], which exceeds [len(text)], while the
    chunk's text is the whitespace-stripped slice of the characters that
    exist. *)
Theorem final_end_char_not_clamped fuel (text : pystr) chunk_size overlap chunks c :
  chunk_text fuel text chunk_size overlap = Some (Ok chunks) ->
  c ∈ chunks ->
  len text - Chunk.start_char c < chunk_size * 4 ->
  Chunk.end_char c = Chunk.start_char c + chunk_size * 4
  /\ len text < Chunk.end_char c
  /\ Chunk.text c = strip (py_slice text (Chunk.start_char c) (len text))
  /\ (0 <= Chunk.start_char c ->
      Chunk.text c = strip (drop (Z.to_nat (Chunk.start_char c)) text)).
Proof.
  intros Hrun Hc Hshort. apply chunk_loop_sound in Hrun.
  destruct (loop_chunks_elem _ _ _ _ _ _ c Hrun Hc) as (Hlt & He & Ht).
  rewrite window_end_past in He by lia. injection He as He.
  split; [done|]. split; [lia|].
  assert (py_slice text (Chunk.start_char c) (Chunk.end_char c)
          = py_slice text (Chunk.start_char c) (len text)) as Hsl.
  { unfold py_slice. pose proof (len_nonneg text).
    assert (slice_index (len text) (Chunk.end_char c) = len text) as ->
      by (unfold slice_index; destruct (Z.ltb_spec (Chunk.end_char c) 0); lia).
    assert (slice_index (len text) (len text) = len text) as ->
      by (unfold slice_index; destruct (Z.ltb_spec (len text) 0); lia).
    done. }
  split; [by rewrite Ht, Hsl|].
  intros Hs. rewrite Ht, Hsl. by rewrite py_slice_suffix by lia.
Qed.

(** Under the default configuration the last chunk is always in that
    situation: its recorded end lies beyond the end of the text. *)
Lemma default_final_end_char fuel (text : pystr) chunks c :
  chunk_text fuel text 800 60 = Some (Ok chunks) ->
  last chunks = Some c ->
  Chunk.end_char c = Chunk.start_char c + 3200 /\ len text + 240 <= Chunk.end_char c.
Proof.
  intros Hrun Hlast. apply chunk_loop_sound in Hrun.
  change (800 * 4) with 3200 in Hrun. change (60 * 4) with 240 in Hrun.
  pose proof (loop_chunks_last _ _ _ _ _ _ c Hrun Hlast) as Hend.
  destruct (loop_chunks_elem _ _ _ _ _ _ c Hrun (last_Some_elem_of _ _ Hlast))
    as (_ & He & _).
  split; [|lia]. revert He. unfold window_end.
  pose proof (break_point_range text 3200 (Chunk.start_char c) ltac:(lia)).
  destruct (Z.ltb_spec (Chunk.start_char c + 3200) (len text)); [|by intros [= <-]].
  rewrite float_of_int_3200. destruct (int_gt_float _ _); intros [= He]; lia.
Qed.

(** A short document under the default configuration: one chunk, whose
    range ends at 3200. *)
Lemma final_end_char_not_clamped_witness :
  let c := Chunk.Make (py "hello world") 0 0 3200 in
  Chunk.end_char c = Chunk.start_char c + 800 * 4
  /\ len (py "  hello world  ") < Chunk.end_char c
  /\ Chunk.text c = strip (py_slice (py "  hello world  ") (Chunk.start_char c)
                             (len (py "  hello world  ")))
  /\ (0 <= Chunk.start_char c ->
      Chunk.text c
      = strip (drop (Z.to_nat (Chunk.start_char c)) (py "  hello world  "))).
Proof.
  apply (final_end_char_not_clamped 2 (py "  hello world  ") 800 60
           [Chunk.Make (py "hello world") 0 0 3200]).
  - vm_compute. reflexivity.
  - apply list_elem_of_here.
  - vm_compute. reflexivity.
Defined.

(** ** Forward progress and termination *)

(** With an overlap of at least a positive window, the start never gets
    past 0 again. *)
Lemma chunk_loop_stuck (text : pystr) W O fuel acc s i :
  0 < W < 2 ^ 1023 -> W <= O -> text ≠ [] -> s <= 0 ->
  chunk_loop fuel text W O acc s i = None.
Proof.
  intros HW HO Htext. revert acc s i.
  assert (0 < len text) as Hlen by (unfold len; destruct text; simpl; [done|lia]).
  induction fuel as [|fuel IH]; intros acc s i Hs; [done|]. simpl.
  destruct (Z.ltb_spec s (len text)); [|lia].
  destruct (window_end text W s) as [e|e] eqn:He.
  - apply IH. apply window_end_upper in He; lia.
  - exfalso. revert He. unfold window_end.
    destruct (float_of_int_pos W HW) as (q & t & -> & _).
    destruct (s + W <? len text); [|done]. by destruct (int_gt_float _ _).
Qed.

(** C1, as the code has it.  There is no forward-progress clamp.  For every
    input text the chunker terminates, with every window start strictly
    greater than the one before, whenever [chunk_size] is positive and
    [overlap] is at most two thirds of it; with [overlap >= chunk_size > 0]
    (and a window that [float] can represent) it never terminates on a
    non-empty text. *)
Theorem chunk_text_forward_progress (text : pystr) chunk_size overlap :
  0 < chunk_size ->
  (3 * overlap <= 2 * chunk_size ->
   terminates text chunk_size overlap
   /\ forall fuel chunks,
        chunk_text fuel text chunk_size overlap = Some (Ok chunks) ->
        ordered_by_start chunks)
  /\ (chunk_size <= overlap -> chunk_size * 4 < 2 ^ 1023 -> text ≠ [] ->
      ~ terminates text chunk_size overlap).
Proof.
  intros Hc. split.
  - intros Ho.
    assert (forall s e, s < len text ->
              window_end text (chunk_size * 4) s = Ok e -> s < e - overlap * 4)
      as Hprog by (intros s e _; apply window_end_progress; lia).
    split.
    + destruct (chunk_loop_terminates text _ _ Hprog 0 0) as [r Hr].
      by exists (S (Z.to_nat (len text - 0))), r.
    + intros fuel chunks Hrun. apply chunk_loop_sound in Hrun.
      by eapply loop_chunks_ordered.
  - intros Ho Hbig Htext (fuel & r & Hr). unfold chunk_text in Hr.
    rewrite chunk_loop_stuck in Hr; [done|lia|lia|done|lia].
Qed.

Lemma chunk_text_forward_progress_witness :
  (terminates (py "abc") 800 60
   /\ forall fuel chunks,
        chunk_text fuel (py "abc") 800 60 = Some (Ok chunks) ->
        ordered_by_start chunks)
  /\ ~ terminates (py "abc") 800 800.
Proof.
  split.
  - apply (chunk_text_forward_progress (py "abc") 800 60); lia.
  - apply (chunk_text_forward_progress (py "abc") 800 800); [lia|lia| |done].
    vm_compute. reflexivity.
Defined.

(** C1, as stated, fails: with [overlap = chunk_size = 800] the loop never
    leaves a one-character text; the start stays at 0. *)
Lemma chunk_text_no_clamp :
  800 >= 800 /\ ~ terminates (py "a") 800 800.
Proof.
  split; [lia|]. intros (fuel & r & Hr). unfold chunk_text in Hr.
  rewrite chunk_loop_stuck in Hr; [done| |lia|done|lia].
  split; [lia|]. vm_compute. reflexivity.
Qed.

(** ** The monad *)

(** Unfold the operations of the monad where they are applied to a world. *)
Ltac run_M :=
  unfold mbind, M_bind, mret, M_ret, config, try_except, raise, lift; simpl.

Lemma bind_run {A B} (m : M A) (k : A -> M B) w :
  (m ≫= k) w
  = match m w with
    | Return a w' => k a w'
    | Throw e w' => Throw e w'
    | Diverge => Diverge
    end.
Proof. reflexivity. Qed.

Lemma bind_Return {A B} (m : M A) (k : A -> M B) w b w'' :
  (m ≫= k) w = Return b w'' ->
  exists a w', m w = Return a w' /\ k a w' = Return b w''.
Proof. rewrite bind_run. destruct (m w) as [a w'| |]; [eauto|done|done]. Qed.

Lemma bind_Throw {A B} (m : M A) (k : A -> M B) w e w'' :
  (m ≫= k) w = Throw e w'' ->
  m w = Throw e w'' \/ exists a w', m w = Return a w' /\ k a w' = Throw e w''.
Proof.
  rewrite bind_run. destruct (m w) as [a w'|e' w'|]; intros H.
  - right. eauto.
  - injection H as -> ->. by left.
  - done.
Qed.

Lemma same_env_refl w : same_env w w.
Proof. by repeat split. Qed.

Lemma same_env_trans w1 w2 w3 : same_env w1 w2 -> same_env w2 w3 -> same_env w1 w3.
Proof.
  unfold same_env. intros (?&?&?&?&?&?&?) (?&?&?&?&?&?&?).
  repeat split; congruence.
Qed.

Lemma read_only_refl w : read_only w w.
Proof. split; [apply same_env_refl|done]. Qed.

Lemma read_only_trans w1 w2 w3 : read_only w1 w2 -> read_only w2 w3 -> read_only w1 w3.
Proof. intros [? ?] [? ?]. split; [by eapply same_env_trans|congruence]. Qed.

Lemma read_only_tick w : read_only w (tick w).
Proof. by repeat split. Qed.

Section respects.
Context (R : World -> World -> Prop).
Hypothesis R_refl : forall w, R w w.
Hypothesis R_trans : forall w1 w2 w3, R w1 w2 -> R w2 w3 -> R w1 w3.

Lemma respects_ret {A} (a : A) : respects R (mret a).
Proof. intros w. apply R_refl. Qed.

Lemma respects_raise {A} e : respects R (@raise A e).
Proof. intros w. apply R_refl. Qed.

Lemma respects_lift {A} (r : option (result A)) : respects R (lift r).
Proof. intros w. unfold lift. destruct r as [[|]|]; try done; apply R_refl. Qed.

Lemma respects_config {A} (f : World -> A) : respects R (config f).
Proof. intros w. apply R_refl. Qed.

Lemma respects_bind {A B} (m : M A) (k : A -> M B) :
  respects R m -> (forall a, respects R (k a)) -> respects R (m ≫= k).
Proof.
  intros Hm Hk w. rewrite bind_run. specialize (Hm w).
  destruct (m w) as [a w'|e w'|]; [|done|done].
  specialize (Hk a w'). destruct (k a w'); eauto.
Qed.

Lemma respects_try_except {A} (m : M A) catches h :
  respects R m -> (forall e, respects R (h e)) -> respects R (try_except m catches h).
Proof.
  intros Hm Hh w. unfold try_except. specialize (Hm w).
  destruct (m w) as [a w'|e w'|]; [done| |done].
  destruct (catches e); [|done].
  specialize (Hh e w'). destruct (h e w'); eauto.
Qed.

Lemma respects_for_each {A B} (f : A -> M B) l :
  (forall x, respects R (f x)) -> respects R (for_each f l).
Proof.
  intros Hf. induction l as [|x l IH]; simpl; [apply respects_ret|].
  apply respects_bind; [done|]. intros y.
  apply respects_bind; [done|]. intros ys. apply respects_ret.
Qed.
End respects.

Lemma respects_weaken {A} (R R' : World -> World -> Prop) (m : M A) :
  (forall w w', R w w' -> R' w w') -> respects R m -> respects R' m.
Proof. intros HR Hm w. specialize (Hm w). destruct (m w); auto. Qed.

Lemma total_bind {A B} (m : M A) (k : A -> M B) :
  total m -> (forall a, total (k a)) -> total (m ≫= k).
Proof.
  intros Hm Hk w. rewrite bind_run. specialize (Hm w).
  destruct (m w) as [a w'|e w'|]; [apply Hk|done|done].
Qed.

Lemma total_try_except {A} (m : M A) catches h :
  total m -> (forall e, total (h e)) -> total (try_except m catches h).
Proof.
  intros Hm Hh w. unfold try_except. specialize (Hm w).
  destruct (m w) as [a w'|e w'|]; [done| |done].
  destruct (catches e); [apply Hh|done].
Qed.

Lemma total_for_each {A B} (f : A -> M B) l :
  (forall x, total (f x)) -> total (for_each f l).
Proof.
  intros Hf. induction l as [|x l IH]; simpl; [done|].
  apply total_bind; [done|]. intros y. by apply total_bind.
Qed.

(** *** The external calls *)

Lemma get_source_text_read_only key : respects read_only (get_source_text key).
Proof.
  intros w. unfold get_source_text.
  destruct (source_object w (calls w) key); apply read_only_tick.
Qed.

Lemma get_object_read_only key : respects read_only (get_object key).
Proof.
  intros w. unfold get_object.
  destruct (vectors_get_fault w (calls w) key); [apply read_only_tick|].
  destruct (vectors w !! key); apply read_only_tick.
Qed.

Lemma utcnow_read_only : respects read_only utcnow_isoformat.
Proof. intros w. apply read_only_tick. Qed.

Lemma invoke_model_read_only req : respects read_only (invoke_model req).
Proof.
  intros w. unfold invoke_model.
  destruct (bedrock w (calls w) req); apply read_only_tick.
Qed.

Lemma put_object_same_env key body : respects same_env (put_object key body).
Proof.
  intros w. unfold put_object.
  destruct (vectors_put_fault w (calls w) key); by repeat split.
Qed.

(** ** Embedding and assembling the records *)

Lemma generate_embedding_run text w :
  generate_embedding text w
  = match bedrock w (calls w) (embed_request w text) with
    | Ok v => Return v (tick w)
    | Raise e => Throw e (tick w)
    end.
Proof.
  unfold generate_embedding, embed_request, invoke_model. run_M.
  by destruct (bedrock w (calls w) _).
Qed.

Lemma process_chunk_run lens_name pillar source_file chunk w :
  process_chunk lens_name pillar source_file chunk w
  = match bedrock w (calls w) (embed_request w (Chunk.text chunk)) with
    | Ok v =>
        Return (chunk_record lens_name pillar source_file chunk v (clock w (S (calls w))))
               (tick (tick w))
    | Raise e => Throw e (tick w)
    end.
Proof.
  unfold process_chunk. rewrite bind_run, generate_embedding_run.
  by destruct (bedrock w (calls w) (embed_request w (Chunk.text chunk))).
Qed.

Lemma process_chunk_read_only lens_name pillar source_file chunk :
  respects read_only (process_chunk lens_name pillar source_file chunk).
Proof.
  intros w. rewrite process_chunk_run.
  destruct (bedrock w (calls w) _); [|apply read_only_tick].
  eapply read_only_trans; apply read_only_tick.
Qed.

Lemma process_chunk_total lens_name pillar source_file chunk :
  total (process_chunk lens_name pillar source_file chunk).
Proof. intros w. rewrite process_chunk_run. by destruct (bedrock w (calls w) _). Qed.

(** Every record of a run is assembled from its chunk, the answer of the
    embedding service to the request for the chunk's text, and a reading of
    the clock. *)
Lemma for_each_process_chunk lens_name pillar source_file chunks w records w' :
  for_each (process_chunk lens_name pillar source_file) chunks w = Return records w' ->
  Forall2 (fun chunk record =>
             exists n v,
               bedrock w n (embed_request w (Chunk.text chunk)) = Ok v
               /\ record = chunk_record lens_name pillar source_file chunk v
                             (clock w (S n)))
          chunks records.
Proof.
  revert w records. induction chunks as [|c chunks IH]; intros w records; simpl.
  - intros [= <- <-]. constructor.
  - intros (r & w1 & Hr & (rs & w2 & Hrs & [= <- <-])%bind_Return)%bind_Return.
    rewrite process_chunk_run in Hr.
    destruct (bedrock w (calls w) _) as [v|] eqn:Hv; [|done].
    injection Hr as <- <-. constructor; [eauto|].
    apply IH in Hrs. eapply Forall2_impl; [exact Hrs|].
    intros c' r' (n & v' & Hv' & ->). by exists n, v'.
Qed.

Lemma process_document_run fuel source_key lens_name pillar source_file w :
  process_document fuel source_key lens_name pillar source_file w
  = match source_object w (calls w) source_key with
    | Ok content =>
        match chunk_text fuel content 800 60 with
        | Some (Ok chunks) =>
            for_each (process_chunk lens_name pillar source_file) chunks (tick w)
        | Some (Raise e) => Throw e (tick w)
        | None => Diverge
        end
    | Raise e => Throw e (tick w)
    end.
Proof.
  unfold process_document. rewrite bind_run. unfold get_source_text.
  destruct (source_object w (calls w) source_key) as [content|]; [|done].
  rewrite bind_run. unfold lift.
  by destruct (chunk_text fuel content 800 60) as [[|]|].
Qed.

Lemma process_document_read_only fuel source_key lens_name pillar source_file :
  respects read_only (process_document fuel source_key lens_name pillar source_file).
Proof.
  unfold process_document.
  apply respects_bind; [apply read_only_trans|apply get_source_text_read_only|].
  intros content.
  apply respects_bind; [apply read_only_trans|apply respects_lift, read_only_refl|].
  intros chunks. apply respects_for_each;
    [apply read_only_refl|apply read_only_trans|apply process_chunk_read_only].
Qed.

(** ** The dimension of the stored embeddings *)

(** C7, as the code has it.  The embedding of every record that
    [process_document] returns is the vector that the embedding service
    answered to the request carrying the chunk's text and the configured
    dimension; its length is [EMBEDDING_DIMENSIONS] whenever the service
    answers with vectors of the requested dimension.  (The pipeline itself
    never looks at the length.) *)
Theorem embedding_is_the_service_answer fuel source_key lens_name pillar source_file
    w records w' :
  process_document fuel source_key lens_name pillar source_file w = Return records w' ->
  Forall (fun r =>
            exists n, bedrock w n (embed_request w (ChunkRecord.text r))
                      = Ok (ChunkRecord.embedding r)) records
  /\ ((forall n text v,
         bedrock w n (embed_request w text) = Ok v -> len v = EMBEDDING_DIMENSIONS w) ->
      Forall (fun r => len (ChunkRecord.embedding r) = EMBEDDING_DIMENSIONS w) records).
Proof.
  rewrite process_document_run.
  destruct (source_object w (calls w) source_key) as [content|]; [|done].
  destruct (chunk_text fuel content 800 60) as [[chunks|]|]; [|done|done].
  intros Hrun%for_each_process_chunk.
  assert (Forall (fun r =>
            exists n, bedrock w n (embed_request w (ChunkRecord.text r))
                      = Ok (ChunkRecord.embedding r)) records) as Hall.
  { induction Hrun as [|c r chunks records (n & v & Hv & ->) _ IH]; constructor; [|done].
    by exists n. }
  split; [done|]. intros Hdim.
  eapply Forall_impl; [exact Hall|]. intros r [n Hn]. by apply Hdim in Hn.
Qed.

Lemma embedding_is_the_service_answer_witness :
  exists records,
    records ≠ []
    /\ Forall (fun r => len (ChunkRecord.embedding r) = 1024) records.
Proof.
  pose (w := example_world (py "abcdefghij") (replicate 1024 (Float 0 0))).
  assert (exists records w',
            process_document 11 "doc.txt" "Lens" "Pillar" "doc.txt" w
            = Return records w' /\ records ≠ []) as (records & w' & Hrun & Hne).
  { vm_compute. eexists _, _. split; [reflexivity|done]. }
  exists records. split; [done|].
  apply (embedding_is_the_service_answer _ _ _ _ _ _ _ _ Hrun).
  intros n text v [= <-]. vm_compute. reflexivity.
Defined.

(** C7, as stated, fails: a service that answers with three numbers where
    1024 were requested gets its answer stored, and the handler reports
    success. *)
Lemma wrong_dimension_is_stored :
  let vector := [Float 1 0; Float 0 0; Float 0 0] in
  let w := example_world (py "abcdefghij") vector in
  let record :=
    chunk_record "Well-Architected Framework" "Operational Excellence"
      "wellarchitected-operational-excellence-pillar.pdf"
      (Chunk.Make (py "abcdefghij") 0 0 3200) vector (example_clock 2) in
  EMBEDDING_DIMENSIONS w = 1024
  /\ len (ChunkRecord.embedding record) = 3
  /\ match handler 11 example_event w with
     | Return response w' =>
         statusCode response = 200
         /\ vectors w' !! chunk_key "well-architected-framework"
                            "operational-excellence" record
            = Some (ChunkBody record)
     | _ => False
     end.
Proof. vm_compute. repeat split. Qed.

(** ** Chunk ids across runs *)

(** The chunker's answer does not depend on the fuel it was given. *)
Lemma chunk_text_deterministic fuel fuel' text chunk_size overlap r r' :
  chunk_text fuel text chunk_size overlap = Some r ->
  chunk_text fuel' text chunk_size overlap = Some r' ->
  r = r'.
Proof.
  unfold chunk_text. intros H H'.
  apply chunk_loop_fuel_mono with (fuel' := (fuel `max` fuel')%nat) in H; [|lia].
  apply chunk_loop_fuel_mono with (fuel' := (fuel `max` fuel')%nat) in H'; [|lia].
  congruence.
Qed.

(** C2, as the code has it.  The chunk id is a pure function of the chunk
    text and the metadata, and the metadata holds the time of processing:
    two runs over the same source text and classification produce records
    that agree, position by position, in text, index and offsets; a record
    has the same id in both runs when the two [processed_at] readings are
    the same, and is the same record when the embeddings are the same too. *)
Theorem chunk_id_is_a_function_of_text_and_metadata
    fuel1 fuel2 source_key lens_name pillar source_file content
    w1 w2 records1 records2 w1' w2' :
  source_object w1 (calls w1) source_key = Ok content ->
  source_object w2 (calls w2) source_key = Ok content ->
  process_document fuel1 source_key lens_name pillar source_file w1
    = Return records1 w1' ->
  process_document fuel2 source_key lens_name pillar source_file w2
    = Return records2 w2' ->
  Forall2 (fun r1 r2 =>
    let m1 := ChunkRecord.metadata r1 in
    let m2 := ChunkRecord.metadata r2 in
    ChunkRecord.text r1 = ChunkRecord.text r2
    /\ ChunkRecord.id r1 = generate_chunk_id (ChunkRecord.text r1) m1
    /\ ChunkRecord.id r2 = generate_chunk_id (ChunkRecord.text r2) m2
    /\ Metadata.lens_name m1 = Metadata.lens_name m2
    /\ Metadata.pillar m1 = Metadata.pillar m2
    /\ Metadata.source_file m1 = Metadata.source_file m2
    /\ Metadata.chunk_index m1 = Metadata.chunk_index m2
    /\ Metadata.start_char m1 = Metadata.start_char m2
    /\ Metadata.end_char m1 = Metadata.end_char m2
    /\ (Metadata.processed_at m1 = Metadata.processed_at m2 ->
        ChunkRecord.id r1 = ChunkRecord.id r2
        /\ (ChunkRecord.embedding r1 = ChunkRecord.embedding r2 -> r1 = r2)))
    records1 records2.
Proof.
  intros Hc1 Hc2. rewrite !process_document_run, Hc1, Hc2.
  destruct (chunk_text fuel1 content 800 60) as [[chunks1|]|] eqn:H1; [|done|done].
  destruct (chunk_text fuel2 content 800 60) as [[chunks2|]|] eqn:H2; [|done|done].
  pose proof (chunk_text_deterministic _ _ _ _ _ _ _ H1 H2) as [= <-].
  intros Hr1%for_each_process_chunk Hr2%for_each_process_chunk.
  apply Forall2_flip in Hr1.
  eapply Forall2_trans; [|exact Hr1|exact Hr2].
  intros r1 c r2 (n1 & v1 & _ & ->) (n2 & v2 & _ & ->). simpl.
  repeat split; try done.
  - unfold chunk_record in *. simpl in *. congruence.
  - unfold chunk_record in *. simpl in *. congruence.
Qed.

Lemma chunk_id_is_a_function_of_text_and_metadata_witness :
  exists records1 records2,
    records1 ≠ []
    /\ Forall2 (fun r1 r2 =>
         let m1 := ChunkRecord.metadata r1 in
         let m2 := ChunkRecord.metadata r2 in
         ChunkRecord.text r1 = ChunkRecord.text r2
         /\ ChunkRecord.id r1 = generate_chunk_id (ChunkRecord.text r1) m1
         /\ ChunkRecord.id r2 = generate_chunk_id (ChunkRecord.text r2) m2
         /\ Metadata.lens_name m1 = Metadata.lens_name m2
         /\ Metadata.pillar m1 = Metadata.pillar m2
         /\ Metadata.source_file m1 = Metadata.source_file m2
         /\ Metadata.chunk_index m1 = Metadata.chunk_index m2
         /\ Metadata.start_char m1 = Metadata.start_char m2
         /\ Metadata.end_char m1 = Metadata.end_char m2
         /\ (Metadata.processed_at m1 = Metadata.processed_at m2 ->
             ChunkRecord.id r1 = ChunkRecord.id r2
             /\ (ChunkRecord.embedding r1 = ChunkRecord.embedding r2 -> r1 = r2)))
         records1 records2.
Proof.
  pose (w1 := example_world (py "abcdefghij") [Float 1 0]).
  pose (w2 := example_world (py "abcdefghij") [Float 1 1]).
  assert (exists records1 w1',
            process_document 11 "doc.txt" "Lens" "Pillar" "doc.txt" w1
            = Return records1 w1' /\ records1 ≠ []) as (records1 & w1' & Hrun1 & Hne).
  { vm_compute. eexists _, _. split; [reflexivity|done]. }
  assert (exists records2 w2',
            process_document 12 "doc.txt" "Lens" "Pillar" "doc.txt" w2
            = Return records2 w2') as (records2 & w2' & Hrun2).
  { vm_compute. eexists _, _. reflexivity. }
  exists records1, records2. split; [done|].
  apply (chunk_id_is_a_function_of_text_and_metadata
           11 12 "doc.txt" "Lens" "Pillar" "doc.txt" (py "abcdefghij")
           w1 w2 records1 records2 w1' w2');
    [reflexivity|reflexivity|exact Hrun1|exact Hrun2].
Defined.

(** C2, as stated, fails: the same document processed twice, the second
    run starting where the first one left the world, gets another
    [processed_at], hence another id, and is stored next to the first
    record rather than over it. *)
Lemma rerun_changes_the_chunk_id :
  let w := example_world (py "abcdefghij") [Float 1 0] in
  let record now :=
    chunk_record "Well-Architected Framework" "Operational Excellence"
      "wellarchitected-operational-excellence-pillar.pdf"
      (Chunk.Make (py "abcdefghij") 0 0 3200) [Float 1 0] now in
  let r1 := record (example_clock 2) in
  let r2 := record (example_clock 9) in
  match handler 11 example_event w with
  | Return _ w1 =>
      match handler 11 example_event w1 with
      | Return _ w2 =>
          ChunkRecord.text r1 = ChunkRecord.text r2
          /\ ChunkRecord.id r1 = "f157aead8a19f04a"%string
          /\ ChunkRecord.id r2 ≠ ChunkRecord.id r1
          /\ vectors w2 !! chunk_key "well-architected-framework"
                              "operational-excellence" r1 = Some (ChunkBody r1)
          /\ vectors w2 !! chunk_key "well-architected-framework"
                              "operational-excellence" r2 = Some (ChunkBody r2)
      | _ => False
      end
  | _ => False
  end.
Proof. vm_compute. repeat split. discriminate. Qed.

(** ** The ten-character document *)

(** A text without period and newline: the window keeps the same length at
    every start, the hard one or, for a negative window, possibly none. *)
Lemma window_end_no_break (text : pystr) W s s' e e' :
  "."%char ∉ text -> "010"%char ∉ text ->
  s < len text -> s' < len text ->
  window_end text W s = Ok e -> window_end text W s' = Ok e' ->
  exists d, (d = W \/ d = 0) /\ e = s + d /\ e' = s' + d.
Proof.
  intros Hp Hn Hs Hs'.
  assert (forall t, window_end text W t
          = if t + W <? len text then
              match float_of_int W with
              | None => Raise OverflowError
              | Some w =>
                  if int_gt_float (-1) (float_mul w float_0_7)
                  then Ok (t + -1 + 1) else Ok (t + W)
              end
            else Ok (t + W)) as Hw.
  { intros t. unfold window_end.
    rewrite !rfind_absent by (intros Hin%py_slice_elem; done). done. }
  rewrite !Hw.
  destruct (Z.le_gt_cases 0 W) as [HW|HW].
  - assert (forall w, float_of_int W = Some w ->
              int_gt_float (-1) (float_mul w float_0_7) = false) as Hno.
    { intros w Hfw. destruct (int_gt_float _ _) eqn:Hgt; [exfalso|done].
      destruct (Z.eq_dec W 0) as [->|].
      - vm_compute in Hfw. injection Hfw as <-. by vm_compute in Hgt.
      - pose proof (int_gt_threshold W w _ ltac:(lia) Hfw Hgt). lia. }
    assert (forall t r, (if t + W <? len text then
                           match float_of_int W with
                           | None => Raise OverflowError
                           | Some w =>
                               if int_gt_float (-1) (float_mul w float_0_7)
                               then Ok (t + -1 + 1) else Ok (t + W)
                           end
                         else Ok (t + W)) = Ok r -> r = t + W) as Hplain.
    { intros t r. destruct (t + W <? len text); [|by intros [= <-]].
      destruct (float_of_int W) as [w|] eqn:Hfw; [|done].
      rewrite (Hno w eq_refl). by intros [= <-]. }
    intros ->%Hplain ->%Hplain. exists W. split; [by left|done].
  - destruct (Z.ltb_spec (s + W) (len text)); [|lia].
    destruct (Z.ltb_spec (s' + W) (len text)); [|lia].
    destruct (float_of_int W) as [w|]; [|done].
    destruct (int_gt_float _ _); intros [= <-] [= <-].
    + exists 0. split; [by right|lia].
    + exists W. split; [by left|done].
Qed.

(** Every configuration that cuts the ten-character document into exactly
    two chunks starts the second one at 8, and the first one is either the
    whole document or ends at 8 or before. *)
Lemma ten_character_two_chunks fuel chunk_size overlap c0 c1 :
  chunk_text fuel (py "abcdefghij") chunk_size overlap = Some (Ok [c0; c1]) ->
  Chunk.start_char c0 = 0
  /\ Chunk.start_char c1 = 8
  /\ Chunk.end_char c0 - Chunk.start_char c1 = overlap * 4
  /\ (Chunk.text c0 = py "abcdefghij" \/ Chunk.end_char c0 <= Chunk.start_char c1).
Proof.
  unfold chunk_text. intros Hl%chunk_loop_sound.
  inversion Hl as [|s0 i0 e0 l0 Hs0 He0 Hl0]; subst.
  inversion Hl0 as [|s1 i1 e1 l1 Hs1 He1 Hl1]; subst.
  inversion Hl1 as [s2 i2 Hs2|]; subst. clear Hl Hl0 Hl1.
  change (len (py "abcdefghij")) with 10 in *.
  destruct (window_end_no_break (py "abcdefghij") (chunk_size * 4) 0
              (e0 - overlap * 4) e0 e1) as (d & Hd & -> & ->); try done.
  { intros H. by repeat (apply elem_of_cons in H as [H|H]; [done|]);
      apply elem_of_nil in H. }
  { intros H. by repeat (apply elem_of_cons in H as [H|H]; [done|]);
      apply elem_of_nil in H. }
  cbn [Chunk.start_char Chunk.end_char Chunk.text].
  assert (d - overlap * 4 = 8) as H8 by lia.
  split; [done|]. split; [lia|]. split; [lia|].
  destruct (Z.le_gt_cases 10 d) as [Hd10|Hd10]; [left|right; lia].
  rewrite py_slice_prefix by lia.
  rewrite take_ge by (simpl; lia). by vm_compute.
Qed.

(** C8, as the code has it.  Every [chunk_size] and [overlap] that cut the
    document ["abcdefghij"] into exactly two chunks start the second chunk
    at 8 and make the recorded ranges overlap by [overlap * 4] characters,
    never by two; the first chunk is the whole document, or the two chunks
    share no character.  With [chunk_size >= 3] and [overlap = chunk_size -
    2] the chunks are the whole document and ["ij"]: the two characters
    they share are a repetition, and nothing of the second chunk is needed
    to give the document back.  With [chunk_size = 2] and [overlap = 0]
    they are ["abcdefgh"] and ["ij"], without overlap.  For [chunk_size =
    3] and [overlap = 1] the two records get the ids [406229c04e609e97] and
    [9386efa4ba60d980], each the function [generate_chunk_id] of the
    record's text and metadata. *)
Theorem ten_character_document :
  (forall fuel chunk_size overlap c0 c1,
     chunk_text fuel (py "abcdefghij") chunk_size overlap = Some (Ok [c0; c1]) ->
     Chunk.start_char c0 = 0
     /\ Chunk.start_char c1 = 8
     /\ Chunk.end_char c0 - Chunk.start_char c1 = overlap * 4
     /\ (Chunk.text c0 = py "abcdefghij" \/ Chunk.end_char c0 <= Chunk.start_char c1))
  /\ (forall chunk_size,
        3 <= chunk_size ->
        chunk_text 3 (py "abcdefghij") chunk_size (chunk_size - 2)
        = Some (Ok [Chunk.Make (py "abcdefghij") 0 0 (chunk_size * 4);
                    Chunk.Make (py "ij") 1 8 (8 + chunk_size * 4)]))
  /\ chunk_text 3 (py "abcdefghij") 2 0
     = Some (Ok [Chunk.Make (py "abcdefgh") 0 0 8; Chunk.Make (py "ij") 1 8 16])
  /\ exists r0 r1 w',
       for_each (process_chunk "Well-Architected Framework" "Operational Excellence"
                   "wellarchitected-operational-excellence-pillar.pdf")
         [Chunk.Make (py "abcdefghij") 0 0 12; Chunk.Make (py "ij") 1 8 20]
         (example_world (py "abcdefghij") []) = Return [r0; r1] w'
       /\ ChunkRecord.text r0 = py "abcdefghij"
       /\ ChunkRecord.text r1 = py "ij"
       /\ ChunkRecord.id r0
          = generate_chunk_id (ChunkRecord.text r0) (ChunkRecord.metadata r0)
       /\ ChunkRecord.id r1
          = generate_chunk_id (ChunkRecord.text r1) (ChunkRecord.metadata r1)
       /\ ChunkRecord.id r0 = "406229c04e609e97"%string
       /\ ChunkRecord.id r1 = "9386efa4ba60d980"%string
       /\ ChunkRecord.id r0 ≠ ChunkRecord.id r1.
Proof.
  split; [apply ten_character_two_chunks|].
  split.
  { intros chunk_size Hcs. unfold chunk_text.
    apply (chunk_loop_complete (py "abcdefghij") (chunk_size * 4)
             ((chunk_size - 2) * 4) 0 0
             [Chunk.Make (py "abcdefghij") 0 0 (chunk_size * 4);
              Chunk.Make (py "ij") 1 8 (8 + chunk_size * 4)]).
    assert (strip (py_slice (py "abcdefghij") 0 (0 + chunk_size * 4))
            = py "abcdefghij") as Ht0.
    { rewrite py_slice_prefix by lia.
      rewrite take_ge by (simpl; lia). by vm_compute. }
    assert (strip (py_slice (py "abcdefghij") 8 (8 + chunk_size * 4)) = py "ij")
      as Ht1.
    { rewrite py_slice_suffix; [by vm_compute|lia|]. change (len _) with 10. lia. }
    assert (loop_chunks (py "abcdefghij") (chunk_size * 4) ((chunk_size - 2) * 4) 0 0
              [Chunk.Make (strip (py_slice (py "abcdefghij") 0 (0 + chunk_size * 4)))
                 0 0 (0 + chunk_size * 4);
               Chunk.Make (strip (py_slice (py "abcdefghij") 8 (8 + chunk_size * 4)))
                 (0 + 1) 8 (8 + chunk_size * 4)]) as Hl.
    { apply loop_iter; [done|apply window_end_past; change (len _) with 10; lia|].
      replace (0 + chunk_size * 4 - (chunk_size - 2) * 4) with 8 by lia.
      apply loop_iter; [done|apply window_end_past; change (len _) with 10; lia|].
      apply loop_exit. change (len _) with 10. lia. }
    rewrite Ht0, Ht1 in Hl. by rewrite Z.add_0_l in Hl. }
  split; [vm_compute; reflexivity|].
  eexists _, _, _.
  split; [vm_compute; reflexivity|].
  vm_compute. repeat split. discriminate.
Qed.

(** C8, as stated, fails: no integers [chunk_size] and [overlap] cut the
    document into exactly two chunks whose recorded ranges overlap by two
    characters, nor into two overlapping chunks of which the first is less
    than the whole document. *)
Lemma no_two_character_overlap :
  ~ exists fuel chunk_size overlap c0 c1,
      chunk_text fuel (py "abcdefghij") chunk_size overlap = Some (Ok [c0; c1])
      /\ (Chunk.end_char c0 - Chunk.start_char c1 = 2
          \/ (Chunk.text c0 ≠ py "abcdefghij"
              /\ Chunk.start_char c1 < Chunk.end_char c0)).
Proof.
  intros (fuel & chunk_size & overlap & c0 & c1 & Hrun & H).
  destruct (ten_character_two_chunks _ _ _ _ _ Hrun) as (_ & _ & Hov & Hc0).
  destruct H as [H2|[Hpart Hshare]]; [lia|]. destruct Hc0; [done|lia].
Qed.

(** Whatever the integers, the recorded ranges of two consecutive chunks
    overlap by a multiple of four characters, never by two. *)
Lemma recorded_overlap_multiple_of_4 text chunk_size overlap s i l (k : nat) c c' :
  loop_chunks text (chunk_size * 4) (overlap * 4) s i l ->
  l !! k = Some c -> l !! S k = Some c' ->
  Chunk.end_char c - Chunk.start_char c' = overlap * 4.
Proof.
  intros Hl. revert k. induction Hl as [|s i e l Hlt He Hl IH]; intros k Hc Hc'; [done|].
  destruct k as [|k]; simpl in Hc, Hc'.
  - injection Hc as <-. simpl. rewrite (loop_chunks_head _ _ _ _ _ _ c' Hl Hc'). lia.
  - by apply (IH k).
Qed.

(** ** The index *)

Lemma updated_index_model (index : Index) lens_name pillar entry :
  <[lens_name := <[pillar := entry]>
                   ((if bool_decide (lens_name ∈ dom index) then index
                     else <[lens_name := ∅]> index) !!! lens_name)]>
    (if bool_decide (lens_name ∈ dom index) then index
     else <[lens_name := ∅]> index)
  = <[lens_name := <[pillar := entry]> (default ∅ (index !! lens_name))]> index.
Proof.
  case_bool_decide as Hdom.
  - apply elem_of_dom in Hdom as [pillars Hp].
    by rewrite (lookup_total_correct _ _ _ Hp), Hp.
  - apply not_elem_of_dom in Hdom. rewrite Hdom. simpl.
    by rewrite lookup_total_insert_eq, insert_insert_eq.
Qed.

(** What one update does: a read of the index object, a reading of the
    clock, and a write of the whole index. *)
Lemma update_index_run lens_name pillar chunk_count w :
  update_index lens_name pillar chunk_count w
  = match vectors_get_fault w (calls w) index_key with
    | Some msg => Throw (ClientError msg) (tick w)
    | None =>
        match vectors w !! index_key with
        | Some (ChunkBody _) => Throw (KeyError "lenses") (tick w)
        | Some (MalformedBody e) => Throw e (tick w)
        | _ =>
            match vectors_put_fault w (S (S (calls w))) index_key with
            | Some msg => Throw (ClientError msg) (tick (tick (tick w)))
            | None =>
                Return ()
                  (with_state w (S (S (S (calls w))))
                     (<[index_key :=
                          IndexBody (updated_index (default ∅ (stored_index w))
                                       lens_name pillar chunk_count
                                       (clock w (S (calls w))))]> (vectors w)))
            end
        end
    end.
Proof.
  unfold update_index, get_object, put_object, utcnow_isoformat, as_index,
    stored_index, updated_index.
  run_M.
  destruct (vectors_get_fault w (calls w) index_key); [done|].
  destruct (vectors w !! index_key) as [[chunk|index|e]|]; simpl; try done.
  - destruct (vectors_put_fault w (S (S (calls w))) index_key); [done|].
    by rewrite updated_index_model.
  - destruct (vectors_put_fault w (S (S (calls w))) index_key); [done|].
    by rewrite (updated_index_model ∅).
Qed.

Lemma updated_index_lookup (index : Index) lens_name pillar chunk_count now
    lens_name' pillar' :
  (updated_index index lens_name pillar chunk_count now !! lens_name'
     ≫= fun pillars => pillars !! pillar')
  = if decide (lens_name' = lens_name /\ pillar' = pillar)
    then Some (IndexEntry.Make chunk_count now)
    else index !! lens_name' ≫= fun pillars => pillars !! pillar'.
Proof.
  unfold updated_index.
  destruct (decide (lens_name' = lens_name)) as [->|Hl].
  - rewrite lookup_insert_eq. simpl.
    destruct (decide (pillar' = pillar)) as [->|Hp].
    + rewrite lookup_insert_eq. by rewrite decide_True.
    + rewrite lookup_insert_ne by done. rewrite decide_False by tauto.
      by destruct (index !! lens_name).
  - rewrite lookup_insert_ne by done. by rewrite decide_False by tauto.
Qed.

Lemma index_entry_written w n (index : Index) lens_name pillar :
  index_entry (with_state w n (<[index_key := IndexBody index]> (vectors w)))
    lens_name pillar
  = index !! lens_name ≫= fun pillars => pillars !! pillar.
Proof. unfold index_entry, stored_index. simpl. by rewrite lookup_insert_eq. Qed.

Lemma index_entry_stored w lens_name pillar :
  index_entry w lens_name pillar
  = default ∅ (stored_index w) !! lens_name ≫= fun pillars => pillars !! pillar.
Proof. unfold index_entry. by destruct (stored_index w). Qed.

(** An update that returns has set its entry and kept all others. *)
Lemma update_index_Return lens_name pillar chunk_count w w' lens_name' pillar' :
  update_index lens_name pillar chunk_count w = Return () w' ->
  index_entry w' lens_name' pillar'
  = if decide (lens_name' = lens_name /\ pillar' = pillar)
    then Some (IndexEntry.Make chunk_count (clock w (S (calls w))))
    else index_entry w lens_name' pillar'.
Proof.
  rewrite update_index_run.
  destruct (vectors_get_fault w (calls w) index_key); [done|].
  destruct (vectors w !! index_key) as [[chunk|index|e]|] eqn:Hi; try done;
    (destruct (vectors_put_fault w (S (S (calls w))) index_key); [done|]);
    intros [= <-];
    by rewrite index_entry_written, updated_index_lookup, <- index_entry_stored.
Qed.

(** An update that raises has written nothing. *)
Lemma update_index_Throw lens_name pillar chunk_count w e w' :
  update_index lens_name pillar chunk_count w = Throw e w' ->
  vectors w' = vectors w.
Proof.
  rewrite update_index_run.
  destruct (vectors_get_fault w (calls w) index_key); [by intros [= <- <-]|].
  destruct (vectors w !! index_key) as [[chunk|index|e']|]; try (by intros [= <- <-]);
    (destruct (vectors_put_fault w (S (S (calls w))) index_key);
     [by intros [= <- <-]|done]).
Qed.

Lemma update_index_total lens_name pillar chunk_count :
  total (update_index lens_name pillar chunk_count).
Proof.
  intros w. rewrite update_index_run.
  destruct (vectors_get_fault w (calls w) index_key); [done|].
  destruct (vectors w !! index_key) as [[chunk|index|e']|]; try done;
    by destruct (vectors_put_fault w (S (S (calls w))) index_key).
Qed.

(** With a readable index and a bucket that answers, an update returns. *)
Lemma update_index_returns lens_name pillar chunk_count w :
  index_readable w -> no_vectors_faults w ->
  exists w',
    update_index lens_name pillar chunk_count w = Return () w'
    /\ index_readable w' /\ no_vectors_faults w'.
Proof.
  intros Hread Hfaults. rewrite update_index_run.
  destruct (Hfaults (calls w) index_key) as [-> _].
  destruct (Hfaults (S (S (calls w))) index_key) as [_ ->].
  unfold index_readable in *.
  destruct (vectors w !! index_key) as [[chunk|index|e]|]; try done;
    (eexists; split; [reflexivity|]; split;
     [simpl; by rewrite lookup_insert_eq|exact Hfaults]).
Qed.

(** C6. Sequential index updates preserve and accumulate entries: from
    any index state (absent, or an index), with a bucket that answers,
    [update(L, "A", 5)] followed by [update(L, "B", 3)] leaves a stored
    index with pillar "A" at count 5 and pillar "B" at count 3 under lens
    [L]; and no update, whether it returns or raises, removes an existing
    (lens, pillar) entry. *)
Theorem index_updates_accumulate :
  (forall w lens_name,
     index_readable w -> no_vectors_faults w ->
     exists w1 w2,
       update_index lens_name "A" 5 w = Return () w1
       /\ update_index lens_name "B" 3 w1 = Return () w2
       /\ IndexEntry.chunk_count <$> index_entry w2 lens_name "A" = Some 5
       /\ IndexEntry.chunk_count <$> index_entry w2 lens_name "B" = Some 3)
  /\ (forall w lens_name pillar chunk_count,
        match update_index lens_name pillar chunk_count w with
        | Return _ w' | Throw _ w' =>
            forall lens_name' pillar',
              is_Some (index_entry w lens_name' pillar') ->
              is_Some (index_entry w' lens_name' pillar')
        | Diverge => False
        end).
Proof.
  split.
  - intros w lens_name Hread Hfaults.
    destruct (update_index_returns lens_name "A" 5 w Hread Hfaults)
      as (w1 & H1 & Hread1 & Hfaults1).
    destruct (update_index_returns lens_name "B" 3 w1 Hread1 Hfaults1)
      as (w2 & H2 & _).
    exists w1, w2. split; [done|]. split; [done|].
    rewrite !(update_index_Return _ _ _ _ _ _ _ H2).
    rewrite !(update_index_Return _ _ _ _ _ _ _ H1).
    rewrite (decide_False (P := _ /\ "A"%string = "B"%string)) by (by intros [_ ?]).
    by rewrite !decide_True.
  - intros w lens_name pillar chunk_count.
    destruct (update_index lens_name pillar chunk_count w) as [[] w'|e w'|] eqn:Hrun.
    + intros lens_name' pillar' Hsome.
      rewrite (update_index_Return _ _ _ _ _ _ _ Hrun). by case_decide.
    + intros lens_name' pillar' Hsome. apply update_index_Throw in Hrun.
      unfold index_entry, stored_index in *. by rewrite Hrun.
    + by apply update_index_total in Hrun.
Qed.

Lemma index_updates_accumulate_witness :
  exists w1 w2,
    update_index "Well-Architected Framework" "A" 5 (example_world [] []) = Return () w1
    /\ update_index "Well-Architected Framework" "B" 3 w1 = Return () w2
    /\ IndexEntry.chunk_count <$> index_entry w2 "Well-Architected Framework" "A"
       = Some 5
    /\ IndexEntry.chunk_count <$> index_entry w2 "Well-Architected Framework" "B"
       = Some 3.
Proof.
  apply (proj1 index_updates_accumulate (example_world [] [])).
  - vm_compute. exact I.
  - intros n key. split; reflexivity.
Defined.

(** ** Storing the records *)

(** [store_vectors] writes the chunk objects in order, and stops at the
    first write that fails. *)
Lemma store_vectors_run chunks lens_name pillar w :
  match store_vectors chunks lens_name pillar w with
  | Return _ w' => vectors w' = put_chunks lens_name pillar chunks (vectors w)
  | Throw _ w' =>
      exists k : nat,
        (k < length chunks)%nat
        /\ vectors w' = put_chunks lens_name pillar (take k chunks) (vectors w)
  | Diverge => False
  end.
Proof.
  unfold store_vectors, put_chunks. rewrite bind_run.
  set (f := fun chunk : ChunkRecord.t => put_object _ _).
  set (g := fun (v : gmap string s3_body) (chunk : ChunkRecord.t) => <[_ := _]> v).
  assert (match for_each f chunks w with
          | Return _ w' => vectors w' = foldl g (vectors w) chunks
          | Throw _ w' =>
              exists k : nat, (k < length chunks)%nat
                /\ vectors w' = foldl g (vectors w) (take k chunks)
          | Diverge => False
          end) as H; [|by destruct (for_each f chunks w)].
  revert w. induction chunks as [|c chunks IH]; intros w; simpl; [done|].
  rewrite bind_run. unfold f at 1, put_object.
  destruct (vectors_put_fault w (calls w) _).
  { exists 0%nat. split; [lia|done]. }
  rewrite bind_run. specialize (IH (with_state w (S (calls w)) (g (vectors w) c))).
  simpl in IH. unfold g at 2 in IH.
  destruct (for_each f chunks _) as [ys w'|e w'|]; simpl; [done| |done].
  destruct IH as (k & Hk & Hv). exists (S k). split; [lia|done].
Qed.

Lemma store_vectors_same_env chunks lens_name pillar :
  respects same_env (store_vectors chunks lens_name pillar).
Proof.
  unfold store_vectors.
  apply respects_bind; [apply same_env_trans| |intros; apply respects_ret, same_env_refl].
  apply respects_for_each; [apply same_env_refl|apply same_env_trans|].
  intros chunk. apply put_object_same_env.
Qed.

(** ** The handler *)

Lemma handler_run fuel event w :
  handler fuel event w
  = match run fuel event w with
    | Return chunks w' => Return (success chunks) w'
    | Throw e w' => Return (failure e) w'
    | Diverge => Diverge
    end.
Proof. unfold handler. run_M. by destruct (run fuel event w). Qed.

(** The stages, once the four fields of the event have been read. *)
Lemma run_stages fuel event source_key lens_name pillar source_file w :
  event !! "source_key"%string = Some source_key ->
  event !! "lens_name"%string = Some lens_name ->
  event !! "pillar"%string = Some pillar ->
  event !! "source_file"%string = Some source_file ->
  run fuel event w
  = match process_document fuel source_key lens_name pillar source_file w with
    | Return chunks w1 =>
        match store_vectors chunks lens_name pillar w1 with
        | Return _ w2 =>
            match update_index lens_name pillar (len chunks) w2 with
            | Return _ w3 => Return chunks w3
            | Throw e w3 => Throw e w3
            | Diverge => Diverge
            end
        | Throw e w2 => Throw e w2
        | Diverge => Diverge
        end
    | Throw e w1 => Throw e w1
    | Diverge => Diverge
    end.
Proof.
  intros H1 H2 H3 H4. unfold run, event_get. rewrite H1, H2, H3, H4. run_M.
  destruct (process_document _ _ _ _ _ w) as [chunks w1| |]; [|done|done].
  destruct (store_vectors _ _ _ w1) as [[] w2| |]; [|done|done].
  by destruct (update_index _ _ _ w2) as [[] w3| |].
Qed.

(** A missing field is a [KeyError], raised before anything is done. *)
Lemma run_missing_field fuel event w :
  (event !! "source_key"%string = None
   \/ event !! "lens_name"%string = None
   \/ event !! "pillar"%string = None
   \/ event !! "source_file"%string = None) ->
  exists key, run fuel event w = Throw (KeyError key) w.
Proof.
  unfold run, event_get. run_M. intros H.
  destruct (event !! "source_key"%string); [|by eexists].
  destruct (event !! "lens_name"%string); [|by eexists].
  destruct (event !! "pillar"%string); [|by eexists].
  destruct (event !! "source_file"%string); [|by eexists].
  by destruct H as [|[|[|]]].
Qed.

Lemma event_fields (event : gmap string string) :
  (event !! "source_key"%string = None
   \/ event !! "lens_name"%string = None
   \/ event !! "pillar"%string = None
   \/ event !! "source_file"%string = None)
  \/ exists source_key lens_name pillar source_file,
       event !! "source_key"%string = Some source_key
       /\ event !! "lens_name"%string = Some lens_name
       /\ event !! "pillar"%string = Some pillar
       /\ event !! "source_file"%string = Some source_file.
Proof.
  destruct (event !! "source_key"%string); [|by auto].
  destruct (event !! "lens_name"%string); [|by auto].
  destruct (event !! "pillar"%string); [|by auto].
  destruct (event !! "source_file"%string); [|by auto].
  right. by eexists _, _, _, _.
Qed.

(** With fuel for the document, [process_document] comes to an end. *)
Lemma process_document_ends source_key lens_name pillar source_file w content fuel :
  source_object w (calls w) source_key = Ok content ->
  (length content < fuel)%nat ->
  process_document fuel source_key lens_name pillar source_file w ≠ Diverge.
Proof.
  intros Hc Hfuel. rewrite process_document_run, Hc.
  destruct (chunk_text_default_runs content) as (chunks & Hrun & _).
  unfold chunk_text in *.
  rewrite (chunk_loop_fuel_mono _ _ _ _ _ _ _ _ _ Hrun) by lia.
  apply total_for_each, process_chunk_total.
Qed.

(** C5. For every invocation event the handler never raises, whatever the
    fuel, and with fuel for the document it returns.  If a field of the
    event is missing, or [process_document], [store_vectors] or
    [update_index] raises an exception [e], the response is [{statusCode:
    500, body: {error: str(e)}}] for that exception.  If the three stages
    return, it is [{statusCode: 200, body: {message, chunks_created: n}}],
    where [n] is the number of records that [process_document] produced;
    the same [n] is what [update_index] is called with, and it is the
    count that the index then holds. *)
Theorem handler_never_raises (event : gmap string string) (w : World) :
  (forall fuel e w', handler fuel event w ≠ Throw e w')
  /\ (forall spare : nat, exists response w',
        handler (enough_fuel event w + spare) event w = Return response w')
  /\ (forall fuel,
        event !! "source_key"%string = None
        \/ event !! "lens_name"%string = None
        \/ event !! "pillar"%string = None
        \/ event !! "source_file"%string = None ->
        exists key, event !! key = None
                    /\ answers_500 (handler fuel event w) (KeyError key) w)
  /\ (forall fuel source_key lens_name pillar source_file,
        event !! "source_key"%string = Some source_key ->
        event !! "lens_name"%string = Some lens_name ->
        event !! "pillar"%string = Some pillar ->
        event !! "source_file"%string = Some source_file ->
        (forall e w1,
           process_document fuel source_key lens_name pillar source_file w
           = Throw e w1 ->
           answers_500 (handler fuel event w) e w1)
        /\ (forall chunks w1,
              process_document fuel source_key lens_name pillar source_file w
              = Return chunks w1 ->
              (forall e w2,
                 store_vectors chunks lens_name pillar w1 = Throw e w2 ->
                 answers_500 (handler fuel event w) e w2)
              /\ (forall w2,
                    store_vectors chunks lens_name pillar w1 = Return () w2 ->
                    (forall e w3,
                       update_index lens_name pillar (len chunks) w2 = Throw e w3 ->
                       answers_500 (handler fuel event w) e w3)
                    /\ (forall w3,
                          update_index lens_name pillar (len chunks) w2
                          = Return () w3 ->
                          answers_200 (handler fuel event w) (len chunks) w3
                          /\ IndexEntry.chunk_count
                               <$> index_entry w3 lens_name pillar
                             = Some (len chunks))))).
Proof.
  split.
  { intros fuel e w'. rewrite handler_run. by destruct (run fuel event w). }
  split.
  { intros spare. rewrite handler_run.
    destruct (event_fields event) as [Hmiss|(sk & L & P & sf & H1 & H2 & H3 & H4)].
    { destruct (run_missing_field (enough_fuel event w + spare) event w Hmiss)
        as [key ->]. by eexists _, _. }
    rewrite (run_stages _ event sk L P sf w H1 H2 H3 H4).
    destruct (process_document _ sk L P sf w) as [chunks w1|e w1|] eqn:Hdoc.
    - pose proof (store_vectors_run chunks L P w1) as Hstore.
      destruct (store_vectors chunks L P w1) as [[] w2|e w2|] eqn:Hst;
        [|by eexists _, _|done].
      destruct (update_index L P (len chunks) w2) as [[] w3|e w3|] eqn:Hup;
        [by eexists _, _|by eexists _, _|by apply update_index_total in Hup].
    - by eexists _, _.
    - exfalso. destruct (source_object w (calls w) sk) as [content|e] eqn:Hc.
      + eapply process_document_ends; [exact Hc| |exact Hdoc].
        unfold enough_fuel. rewrite H1, Hc. lia.
      + by rewrite process_document_run, Hc in Hdoc. }
  split.
  { intros fuel Hmiss. unfold answers_500. rewrite handler_run.
    unfold run, event_get. run_M.
    destruct (event !! "source_key"%string) eqn:E1;
      [|exists "source_key"%string; split; [done|by eexists]].
    destruct (event !! "lens_name"%string) eqn:E2;
      [|exists "lens_name"%string; split; [done|by eexists]].
    destruct (event !! "pillar"%string) eqn:E3;
      [|exists "pillar"%string; split; [done|by eexists]].
    destruct (event !! "source_file"%string) eqn:E4;
      [|exists "source_file"%string; split; [done|by eexists]].
    by destruct Hmiss as [|[|[|]]]. }
  intros fuel source_key lens_name pillar source_file H1 H2 H3 H4.
  unfold answers_500, answers_200.
  rewrite handler_run, (run_stages fuel event _ _ _ _ w H1 H2 H3 H4).
  split; [intros e w1 ->; by eexists|].
  intros chunks w1 ->. split; [intros e w2 ->; by eexists|].
  intros w2 ->. split; [intros e w3 ->; by eexists|].
  intros w3 Hup. rewrite Hup. split; [by eexists|].
  rewrite (update_index_Return _ _ _ _ _ _ _ Hup). by rewrite decide_True.
Qed.

(** The documented event on a ten-character document is answered with 200
    and one chunk; with an embedding service that throttles the second
    request, a document of two chunks is answered with 500. *)
Lemma handler_never_raises_witness :
  (exists w', answers_200 (handler 11 example_event (example_world (py "abcdefghij") []))
                1 w')
  /\ (exists w', answers_500
                   (handler 4501 example_event
                      (throttled_world (replicate 4500 "a"%char)))
                   (ClientError "ThrottlingException") w').
Proof.
  split.
  - pose (w := example_world (py "abcdefghij") []).
    pose (source_key :=
            "wellarchitected/wellarchitected-operational-excellence-pillar.pdf"%string).
    pose (lens_name := "Well-Architected Framework"%string).
    pose (pillar := "Operational Excellence"%string).
    pose (source_file := "wellarchitected-operational-excellence-pillar.pdf"%string).
    destruct (handler_never_raises example_event w) as (_ & _ & _ & Hstages).
    destruct (Hstages 11%nat source_key lens_name pillar source_file
                eq_refl eq_refl eq_refl eq_refl) as [_ Hdoc].
    pose (chunks :=
            match process_document 11 source_key lens_name pillar source_file w with
            | Return chunks _ => chunks
            | _ => []
            end).
    pose (w1 := tick (tick (tick w))).
    pose (w2 := with_state w 4 (put_chunks lens_name pillar chunks ∅)).
    pose (w3 := with_state w 7
                  (<[index_key := IndexBody (updated_index ∅ lens_name pillar 1
                                               (example_clock 5))]>
                     (put_chunks lens_name pillar chunks ∅))).
    assert (process_document 11 source_key lens_name pillar source_file w
            = Return chunks w1) as Hpd by (vm_compute; reflexivity).
    assert (store_vectors chunks lens_name pillar w1 = Return () w2) as Hsv
      by (vm_compute; reflexivity).
    assert (update_index lens_name pillar (len chunks) w2 = Return () w3) as Hui
      by (vm_compute; reflexivity).
    exists w3. change 1 with (len chunks).
    destruct (Hdoc chunks w1 Hpd) as [_ Hst].
    destruct (Hst w2 Hsv) as [_ Hidx]. by destruct (Hidx w3 Hui).
  - pose (w := throttled_world (replicate 4500 "a"%char)).
    destruct (handler_never_raises example_event w) as (_ & _ & _ & Hstages).
    destruct (Hstages 4501%nat
                "wellarchitected/wellarchitected-operational-excellence-pillar.pdf"%string
                "Well-Architected Framework"%string "Operational Excellence"%string
                "wellarchitected-operational-excellence-pillar.pdf"%string
                eq_refl eq_refl eq_refl eq_refl) as [Hdoc _].
    assert (exists w1,
              process_document 4501
                "wellarchitected/wellarchitected-operational-excellence-pillar.pdf"
                "Well-Architected Framework" "Operational Excellence"
                "wellarchitected-operational-excellence-pillar.pdf" w
              = Throw (ClientError "ThrottlingException") w1) as (w1 & Hpd).
    { vm_compute. eexists. reflexivity. }
    exists w1. by apply Hdoc.
Defined.

(** ** What a failed run leaves behind *)

(** The loop over the chunks stops at the first one that raises. *)
Lemma for_each_stops {A B} (f : A -> M B) l1 x l2 w ys w1 e w2 :
  for_each f l1 w = Return ys w1 ->
  f x w1 = Throw e w2 ->
  for_each f (l1 ++ x :: l2) w = Throw e w2.
Proof.
  revert w ys. induction l1 as [|y l1 IH]; intros w ys; simpl.
  - intros [= <- <-] Hx. by rewrite bind_run, Hx.
  - intros (b & w' & Hy & (bs & w'' & Hl1 & [= <- <-])%bind_Return)%bind_Return Hx.
    rewrite bind_run, Hy, bind_run. by rewrite (IH _ _ Hl1 Hx).
Qed.

Lemma process_chunk_stops lens_name pillar source_file chunk w e w' :
  generate_embedding (Chunk.text chunk) w = Throw e w' ->
  process_chunk lens_name pillar source_file chunk w = Throw e w'.
Proof. intros H. unfold process_chunk. by rewrite bind_run, H. Qed.

(** C10, as the code has it.  An embedding failure is atomic with respect
    to storage: if [generate_embedding] raises for any chunk of the
    document, after the chunks before it have been embedded, the handler
    answers 500 with that exception and no object has been written.  State
    left behind by a failed run has two sources, not one: whenever the
    handler answers 500, either nothing was written, or every chunk had
    been embedded and the failure came from [store_vectors] itself, after
    it had written some but not all of the chunk objects, or it came from
    [update_index], after all the chunk objects had been written. *)
Theorem embedding_failure_writes_nothing fuel (event : gmap string string)
    source_key lens_name pillar source_file (w : World) :
  event !! "source_key"%string = Some source_key ->
  event !! "lens_name"%string = Some lens_name ->
  event !! "pillar"%string = Some pillar ->
  event !! "source_file"%string = Some source_file ->
  (forall content embedded chunk rest records w1 e w2,
     source_object w (calls w) source_key = Ok content ->
     chunk_text fuel content 800 60 = Some (Ok (embedded ++ chunk :: rest)) ->
     for_each (process_chunk lens_name pillar source_file) embedded (tick w)
       = Return records w1 ->
     generate_embedding (Chunk.text chunk) w1 = Throw e w2 ->
     handler fuel event w = Return (failure e) w2
     /\ vectors w2 = vectors w)
  /\ (forall response w',
        handler fuel event w = Return response w' ->
        statusCode response = 500 ->
        vectors w' = vectors w
        \/ exists chunks w1 e,
             process_document fuel source_key lens_name pillar source_file w
               = Return chunks w1
             /\ vectors w1 = vectors w
             /\ ((store_vectors chunks lens_name pillar w1 = Throw e w'
                  /\ exists k : nat,
                       (k < length chunks)%nat
                       /\ vectors w'
                          = put_chunks lens_name pillar (take k chunks) (vectors w))
                 \/ (exists w2,
                       store_vectors chunks lens_name pillar w1 = Return () w2
                       /\ update_index lens_name pillar (len chunks) w2 = Throw e w'
                       /\ vectors w'
                          = put_chunks lens_name pillar chunks (vectors w)))).
Proof.
  intros H1 H2 H3 H4.
  pose proof (process_document_read_only fuel source_key lens_name pillar source_file w)
    as Hro.
  split.
  - intros content embedded chunk rest records w1 e w2 Hc Hchunks Hdone Hfail.
    assert (process_document fuel source_key lens_name pillar source_file w
            = Throw e w2) as Hdoc.
    { rewrite process_document_run, Hc, Hchunks.
      eapply for_each_stops; [exact Hdone|]. by apply process_chunk_stops. }
    rewrite Hdoc in Hro. destruct Hro as [_ Hv].
    by rewrite handler_run, (run_stages fuel event _ _ _ _ w H1 H2 H3 H4), Hdoc.
  - intros response w'.
    rewrite handler_run, (run_stages fuel event _ _ _ _ w H1 H2 H3 H4).
    destruct (process_document fuel source_key lens_name pillar source_file w)
      as [chunks w1|e w1|] eqn:Hdoc; [|intros [= <- <-] _|done].
    + destruct Hro as [_ Hv1].
      pose proof (store_vectors_run chunks lens_name pillar w1) as Hstore.
      destruct (store_vectors chunks lens_name pillar w1) as [[] w2|e w2|] eqn:Hst;
        [| |done].
      * destruct (update_index lens_name pillar (len chunks) w2) as [[] w3|e w3|] eqn:Hup;
          [by intros [= <- <-]| |done].
        intros [= <- <-] _. right. exists chunks, w1, e.
        repeat (split; [done|]). right. exists w2. repeat (split; [done|]).
        apply update_index_Throw in Hup. by rewrite Hup, Hstore, Hv1.
      * intros [= <- <-] _. right. exists chunks, w1, e.
        repeat (split; [done|]). left. split; [done|].
        destruct Hstore as (k & Hk & Hv). exists k. by rewrite Hv, Hv1.
    + left. by destruct Hro as [_ Hv1].
Qed.

(** A document of two chunks whose second embedding is throttled: the
    handler answers 500 and the bucket stays empty. *)
Lemma embedding_failure_writes_nothing_witness :
  let w := throttled_world (replicate 4500 "a"%char) in
  (exists w2,
     handler 4501 example_event w
     = Return (failure (ClientError "ThrottlingException")) w2
     /\ vectors w2 = vectors w)
  /\ (exists response w',
        handler 4501 example_event w = Return response w'
        /\ statusCode response = 500
        /\ vectors w' = ∅).
Proof.
  intros w.
  pose proof (embedding_failure_writes_nothing 4501 example_event
                "wellarchitected/wellarchitected-operational-excellence-pillar.pdf"
                "Well-Architected Framework" "Operational Excellence"
                "wellarchitected-operational-excellence-pillar.pdf" w
                eq_refl eq_refl eq_refl eq_refl) as [Hfirst Hsecond].
  split.
  - pose (c0 := Chunk.Make (replicate 3200 "a"%char) 0 0 3200).
    pose (c1 := Chunk.Make (replicate 1540 "a"%char) 1 2960 6160).
    assert (exists records w1 w2,
              for_each (process_chunk "Well-Architected Framework"
                          "Operational Excellence"
                          "wellarchitected-operational-excellence-pillar.pdf")
                [c0] (tick w) = Return records w1
              /\ generate_embedding (Chunk.text c1) w1
                 = Throw (ClientError "ThrottlingException") w2)
      as (records & w1 & w2 & Hdone & Hfail).
    { vm_compute. eexists _, _, _. split; reflexivity. }
    exists w2.
    apply (Hfirst (replicate 4500 "a"%char) [c0] c1 [] records w1 _ w2);
      [reflexivity|vm_compute; reflexivity|exact Hdone|exact Hfail].
  - assert (exists response w',
              handler 4501 example_event w = Return response w'
              /\ statusCode response = 500 /\ vectors w' = ∅)
      as (response & w' & Hrun & Hcode & Hv).
    { vm_compute. eexists _, _. repeat split. }
    exists response, w'. repeat (split; [done|]).
    destruct (Hsecond response w' Hrun Hcode) as [Hsame|_]; [exact Hsame|exact Hv].
Defined.

(** C10, as stated, fails: when the write of the index object is refused,
    [store_vectors] has returned, the chunk object of the document is in
    the bucket, no index object is, and the handler answers 500: state is
    left behind by a failure that is not one of [store_vectors]. *)
Lemma index_failure_leaves_chunk_objects :
  let w := refused_index_world (py "abcdefghij") in
  let source_key :=
    "wellarchitected/wellarchitected-operational-excellence-pillar.pdf"%string in
  let lens_name := "Well-Architected Framework"%string in
  let pillar := "Operational Excellence"%string in
  let source_file := "wellarchitected-operational-excellence-pillar.pdf"%string in
  match process_document 11 source_key lens_name pillar source_file w with
  | Return chunks w1 =>
      match store_vectors chunks lens_name pillar w1 with
      | Return _ w2 =>
          match update_index lens_name pillar (len chunks) w2,
                handler 11 example_event w with
          | Throw e _, Return response w' =>
              size (vectors w) = 0%nat
              /\ length chunks = 1%nat
              /\ e = ClientError "AccessDenied"
              /\ response = failure e
              /\ statusCode response = 500
              /\ size (vectors w') = 1%nat
              /\ vectors w' !! index_key = None
              /\ Forall (fun c =>
                   vectors w' !! chunk_key "well-architected-framework"
                                   "operational-excellence" c
                   = Some (ChunkBody c)) chunks
          | _, _ => False
          end
      | _ => False
      end
  | _ => False
  end.
Proof. vm_compute. repeat split. by repeat constructor. Qed.

(** * Further properties of the code *)

(** ** The chunker under the default configuration *)

Lemma py_slice_whole {A} (l : list A) j : len l <= j -> py_slice l 0 j = l.
Proof.
  intros Hj. pose proof (len_nonneg l).
  rewrite py_slice_prefix by lia. apply take_ge. unfold len in *. lia.
Qed.

Lemma loop_chunks_nil_iff text W O s i l :
  loop_chunks text W O s i l -> (l = [] <-> len text <= s).
Proof. destruct 1; split; try done; lia. Qed.

(** The number of iterations, from the least and the greatest advance of a
    window start. *)
Lemma loop_chunks_3200_count text s i l :
  loop_chunks text 3200 240 s i l ->
  len text - s <= 2960 * len l
  /\ (l ≠ [] -> 2002 * (len l - 1) < len text - s).
Proof.
  induction 1 as [s i Hge|s i e l Hlt He Hl [IHhi IHlo]].
  - unfold len in *. simpl. split; [lia|done].
  - destruct (window_end_3200 text s) as (e' & He' & Hr).
    rewrite He in He'. injection He' as <-.
    unfold len in *. simpl length. split; [lia|]. intros _.
    destruct l as [|c l]; [simpl; lia|].
    specialize (IHlo ltac:(done)). simpl length in *. lia.
Qed.

(** X1. Under the default configuration an empty document gives no chunk,
    and a document gives exactly one chunk if and only if it has between 1
    and 2960 characters; that chunk is the whole document, stripped, with
    the range [0, 3200). *)
Theorem short_document_single_chunk (text : pystr) :
  exists chunks,
    chunk_text (S (length text)) text 800 60 = Some (Ok chunks)
    /\ (chunks = [] <-> text = [])
    /\ (length chunks = 1%nat <-> 0 < len text <= 2960)
    /\ (length chunks = 1%nat -> chunks = [Chunk.Make (strip text) 0 0 3200]).
Proof.
  destruct (chunk_text_default_runs text) as (chunks & Hrun & Hl).
  exists chunks. split; [done|].
  pose proof (loop_chunks_3200_count text 0 0 chunks Hl) as [Hhi Hlo].
  pose proof (len_nonneg text).
  split.
  { rewrite (loop_chunks_nil_iff _ _ _ _ _ _ Hl). unfold len.
    destruct text; simpl; split; (done || lia). }
  assert (length chunks = 1%nat -> 0 < len text <= 2960) as Hone.
  { intros H1. split; [|unfold len in *; rewrite H1 in Hhi; lia].
    destruct (Z.lt_ge_cases 0 (len text)) as [|Hz]; [done|].
    apply (loop_chunks_nil_iff _ _ _ _ _ _ Hl) in Hz. by rewrite Hz in H1. }
  split; [split; [done|]|].
  - intros Hshort. inversion Hl as [? ? Hge|? ? e l Hlt He Hl']; subst; [lia|].
    rewrite window_end_past in He by lia. injection He as <-.
    apply loop_chunks_nil_iff in Hl'. by rewrite (proj2 Hl') by lia.
  - intros H1. specialize (Hone H1).
    inversion Hl as [? ? Hge|? ? e l Hlt He Hl']; subst; [done|].
    rewrite window_end_past in He by lia. injection He as <-.
    destruct l; [|done]. by rewrite py_slice_whole by lia.
Qed.

(** X2. Under the default configuration every chunk starts inside the
    document, and the number [n] of chunks is bounded by the length of the
    document both ways: [len(text) <= 2960 * n], and [2002 * (n - 1) <
    len(text)] when there is a chunk at all. *)
Theorem default_chunk_count (text : pystr) :
  exists chunks,
    chunk_text (S (length text)) text 800 60 = Some (Ok chunks)
    /\ Forall (fun c => 0 <= Chunk.start_char c < len text) chunks
    /\ len text <= 2960 * len chunks
    /\ (chunks ≠ [] -> 2002 * (len chunks - 1) < len text).
Proof.
  destruct (chunk_text_default_runs text) as (chunks & Hrun & Hl).
  exists chunks. split; [done|].
  pose proof (loop_chunks_3200_count text 0 0 chunks Hl) as [Hhi Hlo].
  split; [|split; [lia|intros Hne; specialize (Hlo Hne); lia]].
  apply Forall_forall. intros c Hc.
  pose proof (loop_chunks_lower text 3200 240 (window_end_3200_progress text)
                0 0 chunks c Hl Hc).
  destruct (loop_chunks_elem _ _ _ _ _ _ c Hl Hc) as (Hlt & _). lia.
Qed.

(** ** The chunker in general *)

Lemma lstrip_length s : (length (lstrip s) <= length s)%nat.
Proof. induction s as [|a s IH]; simpl; [done|]. destruct (is_space a); simpl; lia. Qed.

Lemma strip_length s : len (strip s) <= len s.
Proof.
  unfold strip, rstrip, len. rewrite length_rev.
  pose proof (lstrip_length (rev (lstrip s))) as H1.
  rewrite length_rev in H1. pose proof (lstrip_length s). lia.
Qed.

Lemma lstrip_head s a : head (lstrip s) = Some a -> is_space a = false.
Proof.
  induction s as [|b s IH]; simpl; [done|].
  destruct (is_space b) eqn:Hb; [done|]. simpl. by intros [= <-].
Qed.

(** What [lstrip] removes is whitespace, and what it keeps is a suffix. *)
Lemma lstrip_suffix s : exists ws, s = ws ++ lstrip s /\ Forall (fun a => is_space a = true) ws.
Proof.
  induction s as [|b s (ws & IH & Hws)]; simpl; [by exists []|].
  destruct (is_space b) eqn:Hb.
  - exists (b :: ws). split; [by rewrite <- app_comm_cons, <- IH|by constructor].
  - by exists [].
Qed.

Lemma rstrip_prefix s : exists ws, s = rstrip s ++ ws /\ Forall (fun a => is_space a = true) ws.
Proof.
  unfold rstrip. destruct (lstrip_suffix (rev s)) as (ws & Hs & Hws).
  exists (rev ws). split; [|by apply Forall_rev].
  rewrite <- rev_app_distr, <- Hs. by rewrite rev_involutive.
Qed.

Lemma last_rev_head {A} (l : list A) : last (rev l) = head l.
Proof. destruct l as [|a l]; [done|]. simpl. apply last_snoc. Qed.

Lemma rstrip_last s a : last (rstrip s) = Some a -> is_space a = false.
Proof. unfold rstrip. rewrite last_rev_head. apply lstrip_head. Qed.

(** A stripped string neither begins nor ends with whitespace. *)
Lemma strip_trimmed s a :
  head (strip s) = Some a \/ last (strip s) = Some a -> is_space a = false.
Proof.
  unfold strip. intros [Hh|Hl]; [|by eapply rstrip_last].
  destruct (rstrip_prefix (lstrip s)) as (ws & Hs & _).
  apply (lstrip_head s). rewrite Hs.
  destruct (rstrip (lstrip s)); [done|]. exact Hh.
Qed.

(** The boundary is never moved before the start. *)
Lemma window_end_lower text W s e :
  0 <= W -> window_end text W s = Ok e -> s <= e.
Proof.
  intros HW. unfold window_end.
  destruct (s + W <? len text); [|intros [= <-]; lia].
  destruct (float_of_int W) as [w|] eqn:Hw; [|done].
  destruct (int_gt_float _ _) eqn:Hgt; intros [= <-]; [|lia].
  destruct (Z.eq_dec W 0) as [->|].
  - pose proof (break_point_range text 0 s ltac:(lia)).
    revert Hgt. vm_compute in Hw. injection Hw as <-.
    unfold float_mul, int_gt_float. simpl.
    intros Hgt%Z.ltb_lt. lia.
  - pose proof (int_gt_threshold W w _ ltac:(lia) Hw Hgt). lia.
Qed.

Lemma py_slice_span {A} (l : list A) i j : i <= j -> len (py_slice l i j) <= j - i.
Proof.
  intros Hij. pose proof (py_slice_window l i (j - i) ltac:(lia)) as H.
  by replace (i + (j - i)) with j in H by lia.
Qed.

(** X3. Whatever the configuration with [chunk_size >= 0], no chunk's text
    is longer than [chunk_size * 4] characters, nor than its recorded
    range. *)
Theorem chunk_text_length_bound fuel (text : pystr) chunk_size overlap chunks c :
  0 <= chunk_size ->
  chunk_text fuel text chunk_size overlap = Some (Ok chunks) ->
  c ∈ chunks ->
  len (Chunk.text c) <= Chunk.end_char c - Chunk.start_char c <= chunk_size * 4.
Proof.
  intros Hsize Hrun Hc. apply chunk_loop_sound in Hrun.
  destruct (loop_chunks_elem _ _ _ _ _ _ c Hrun Hc) as (_ & He & ->).
  pose proof (window_end_lower text (chunk_size * 4) _ _ ltac:(lia) He).
  pose proof (window_end_upper text (chunk_size * 4) _ _ ltac:(lia) He).
  pose proof (strip_length (py_slice text (Chunk.start_char c) (Chunk.end_char c))).
  pose proof (py_slice_span text (Chunk.start_char c) (Chunk.end_char c)). lia.
Qed.

Lemma chunk_text_length_bound_witness :
  len (py "ij") <= 20 - 8 <= 3 * 4.
Proof.
  apply (chunk_text_length_bound 3 (py "abcdefghij") 3 1
           [Chunk.Make (py "abcdefghij") 0 0 12; Chunk.Make (py "ij") 1 8 20]
           (Chunk.Make (py "ij") 1 8 20)).
  - lia.
  - vm_compute. reflexivity.
  - apply list_elem_of_further, list_elem_of_here.
Defined.

(** X4. Whatever the configuration, no chunk's text begins or ends with a
    whitespace character. *)
Theorem chunk_text_trimmed fuel (text : pystr) chunk_size overlap chunks c a :
  chunk_text fuel text chunk_size overlap = Some (Ok chunks) ->
  c ∈ chunks ->
  head (Chunk.text c) = Some a \/ last (Chunk.text c) = Some a ->
  is_space a = false.
Proof.
  intros Hrun Hc. apply chunk_loop_sound in Hrun.
  destruct (loop_chunks_elem _ _ _ _ _ _ c Hrun Hc) as (_ & _ & ->).
  apply strip_trimmed.
Qed.

Lemma chunk_text_trimmed_witness : is_space "h"%char = false.
Proof.
  apply (chunk_text_trimmed 2 (py "  hello world  ") 800 60
           [Chunk.Make (py "hello world") 0 0 3200]
           (Chunk.Make (py "hello world") 0 0 3200)).
  - vm_compute. reflexivity.
  - apply list_elem_of_here.
  - left. reflexivity.
Defined.

(** X5. Whatever the configuration, the recorded ranges of two consecutive
    chunks overlap by exactly [overlap * 4] characters: the next start is
    the previous end less the overlap. *)
Theorem consecutive_chunks_overlap fuel (text : pystr) chunk_size overlap chunks
    (k : nat) c c' :
  chunk_text fuel text chunk_size overlap = Some (Ok chunks) ->
  chunks !! k = Some c -> chunks !! S k = Some c' ->
  Chunk.start_char c' = Chunk.end_char c - overlap * 4.
Proof.
  intros Hrun Hc Hc'. apply chunk_loop_sound in Hrun.
  pose proof (recorded_overlap_multiple_of_4 _ _ _ _ _ _ _ _ _ Hrun Hc Hc'). lia.
Qed.

Lemma consecutive_chunks_overlap_witness : 8 = 12 - 1 * 4.
Proof.
  apply (consecutive_chunks_overlap 3 (py "abcdefghij") 3 1
           [Chunk.Make (py "abcdefghij") 0 0 12; Chunk.Make (py "ij") 1 8 20]
           0 (Chunk.Make (py "abcdefghij") 0 0 12) (Chunk.Make (py "ij") 1 8 20)).
  - vm_compute. reflexivity.
  - reflexivity.
  - reflexivity.
Defined.

(** ** Where a window is cut *)

Lemma rfind_found c s :
  0 <= rfind c s -> s !! Z.to_nat (rfind c s) = Some c.
Proof.
  induction s as [|a s IH]; simpl; [lia|].
  destruct (Z.leb_spec 0 (rfind c s)) as [Hr|Hr].
  - intros _. replace (Z.to_nat (rfind c s + 1)) with (S (Z.to_nat (rfind c s))) by lia.
    by apply IH.
  - case_bool_decide as Ha; [|lia]. by subst.
Qed.

Lemma rfind_after c s (j : nat) :
  rfind c s < Z.of_nat j -> s !! j ≠ Some c.
Proof.
  revert j. induction s as [|a s IH]; intros j; simpl; [by destruct j|].
  destruct (Z.leb_spec 0 (rfind c s)) as [Hr|Hr].
  - destruct j as [|j]; [lia|]. intros Hj. simpl. apply IH. lia.
  - destruct j as [|j].
    + case_bool_decide as Ha; [lia|]. intros _. simpl. congruence.
    + intros _. simpl. apply IH. lia.
Qed.

(** The characters of a window that lies inside the text. *)
Lemma py_slice_lookup {A} (l : list A) i j (k : nat) :
  0 <= i -> j <= len l -> Z.of_nat k < j - i ->
  py_slice l i j !! k = l !! (Z.to_nat i + k)%nat.
Proof.
  intros Hi Hj Hk. unfold py_slice.
  assert (slice_index (len l) i = i) as ->
    by (unfold slice_index; destruct (Z.ltb_spec i 0); lia).
  assert (slice_index (len l) j = j) as ->
    by (unfold slice_index; destruct (Z.ltb_spec j 0); lia).
  rewrite lookup_take_lt by lia. apply lookup_drop.
Qed.

(** X6. Under the default configuration a chunk whose range is shorter
    than the window of 3200 characters ends just after a period or a
    newline of the document, at least 2242 characters after its start, and
    the rest of its window holds no period and no newline. *)
Theorem snapped_end_is_sentence_end fuel (text : pystr) chunks c :
  chunk_text fuel text 800 60 = Some (Ok chunks) ->
  c ∈ chunks ->
  Chunk.end_char c ≠ Chunk.start_char c + 3200 ->
  Chunk.start_char c + 2242 <= Chunk.end_char c < Chunk.start_char c + 3200
  /\ (text !! Z.to_nat (Chunk.end_char c - 1) = Some "."%char
      \/ text !! Z.to_nat (Chunk.end_char c - 1) = Some "010"%char)
  /\ forall p, Chunk.end_char c <= p < Chunk.start_char c + 3200 ->
       text !! Z.to_nat p ≠ Some "."%char /\ text !! Z.to_nat p ≠ Some "010"%char.
Proof.
  intros Hrun Hc Hne. apply chunk_loop_sound in Hrun.
  change (800 * 4) with 3200 in Hrun. change (60 * 4) with 240 in Hrun.
  destruct (loop_chunks_elem _ _ _ _ _ _ c Hrun Hc) as (Hlt & He & _).
  pose proof (loop_chunks_lower text 3200 240 (window_end_3200_progress text)
                0 0 chunks c Hrun Hc) as Hs.
  set (s := Chunk.start_char c) in *. set (e := Chunk.end_char c) in *.
  revert He. unfold window_end.
  destruct (Z.ltb_spec (s + 3200) (len text)) as [Hin|]; [|by intros [= ?]].
  rewrite float_of_int_3200, int_gt_threshold_3200.
  set (sl := py_slice text s (s + 3200)).
  pose proof (rfind_range "."%char sl) as Hrp.
  pose proof (rfind_range "010"%char sl) as Hrn.
  pose proof (py_slice_window text s 3200 ltac:(lia)) as Hsl. fold sl in Hsl.
  assert (forall k : nat, Z.of_nat k < 3200 ->
            sl !! k = text !! (Z.to_nat s + k)%nat) as Hlook.
  { intros k Hk. apply py_slice_lookup; lia. }
  destruct (Z.ltb_spec 2240 (Z.max (rfind "."%char sl) (rfind "010"%char sl)))
    as [Hbp|]; [|by intros [= ?]].
  intros [= He]. split; [lia|]. split.
  - destruct (Z.max_spec (rfind "."%char sl) (rfind "010"%char sl)) as [[_ Hm]|[_ Hm]];
      rewrite Hm in He, Hbp.
    + right. pose proof (rfind_found "010"%char sl ltac:(lia)) as Hf.
      rewrite Hlook in Hf by lia. rewrite <- Hf. f_equal. lia.
    + left. pose proof (rfind_found "."%char sl ltac:(lia)) as Hf.
      rewrite Hlook in Hf by lia. rewrite <- Hf. f_equal. lia.
  - intros p Hp.
    replace (Z.to_nat p) with (Z.to_nat s + Z.to_nat (p - s))%nat by lia.
    rewrite <- Hlook by lia. split; apply rfind_after; lia.
Qed.

Lemma snapped_end_is_sentence_end_witness :
  let text := replicate 2800 "a"%char ++ ["."%char] ++ replicate 1199 "a"%char in
  0 + 2242 <= 2801 < 0 + 3200
  /\ (text !! Z.to_nat (2801 - 1) = Some "."%char
      \/ text !! Z.to_nat (2801 - 1) = Some "010"%char)
  /\ forall p, 2801 <= p < 0 + 3200 ->
       text !! Z.to_nat p ≠ Some "."%char /\ text !! Z.to_nat p ≠ Some "010"%char.
Proof.
  intros text.
  assert (exists chunks rest,
            chunk_text 3 text 800 60 = Some (Ok chunks)
            /\ chunks = Chunk.Make (replicate 2800 "a"%char ++ ["."%char]) 0 0 2801 :: rest)
    as (chunks & rest & Hrun & Hchunks).
  { vm_compute. eexists _, _. split; reflexivity. }
  apply (snapped_end_is_sentence_end 3 text chunks
           (Chunk.Make (replicate 2800 "a"%char ++ ["."%char]) 0 0 2801)).
  - exact Hrun.
  - rewrite Hchunks. apply list_elem_of_here.
  - simpl. lia.
Defined.

(** ** The shape of a chunk id *)

Lemma be_bytes_length n x : length (SHA256.be_bytes n x) = n.
Proof.
  revert x. induction n as [|n IH]; intros x; simpl; [done|].
  rewrite length_app, IH. simpl. lia.
Qed.

Lemma be_bytes_range n x : Forall (fun b => 0 <= b < 256) (SHA256.be_bytes n x).
Proof.
  revert x. induction n as [|n IH]; intros x; simpl; [constructor|].
  apply Forall_app. split; [apply IH|].
  constructor; [|constructor]. apply Z.mod_pos_bound. lia.
Qed.

Lemma round_length s kw : length s = 8%nat -> length (SHA256.round s kw) = 8%nat.
Proof.
  intros H. do 9 (destruct s as [|? s]; try done).
Qed.

Lemma compress_length h block :
  length h = 8%nat -> length (SHA256.compress h block) = 8%nat.
Proof.
  intros H. unfold SHA256.compress. rewrite length_zip_with, H.
  assert (forall l s, length s = 8%nat -> length (foldl SHA256.round s l) = 8%nat) as Hf.
  { induction l as [|kw l IH]; intros s Hs; simpl; [done|].
    by apply IH, round_length. }
  rewrite Hf by done. done.
Qed.

Lemma blocks_length n h bs :
  length h = 8%nat -> length (SHA256.blocks n h bs) = 8%nat.
Proof.
  revert h bs. induction n as [|n IH]; intros h bs H; simpl; [done|].
  by apply IH, compress_length.
Qed.

Lemma flat_map_length_const {A B} (f : A -> list B) (n : nat) l :
  (forall x, length (f x) = n) -> length (flat_map f l) = (n * length l)%nat.
Proof.
  intros Hf. induction l as [|x l IH]; simpl; [lia|].
  rewrite length_app, Hf, IH. lia.
Qed.

Lemma Forall_flat_map_intro {A B} (P : B -> Prop) (f : A -> list B) l :
  (forall x, Forall P (f x)) -> Forall P (flat_map f l).
Proof.
  intros Hf. induction l as [|x l IH]; simpl; [constructor|].
  apply Forall_app. split; [apply Hf|apply IH].
Qed.

(** A digest has 32 bytes. *)
Lemma digest_shape msg :
  length (SHA256.digest msg) = 32%nat
  /\ Forall (fun b => 0 <= b < 256) (SHA256.digest msg).
Proof.
  unfold SHA256.digest. split.
  - rewrite (flat_map_length_const _ 4) by (intros; apply be_bytes_length).
    rewrite blocks_length; [done|]. vm_compute. reflexivity.
  - apply Forall_flat_map_intro. intros x. apply be_bytes_range.
Qed.

Lemma hex_digit_is_hex d : 0 <= d < 16 -> is_hex_digit (hex_digit d) = true.
Proof.
  intros Hd.
  assert (d = 0 \/ d = 1 \/ d = 2 \/ d = 3 \/ d = 4 \/ d = 5 \/ d = 6 \/ d = 7
          \/ d = 8 \/ d = 9 \/ d = 10 \/ d = 11 \/ d = 12 \/ d = 13 \/ d = 14
          \/ d = 15) as H by lia.
  repeat (destruct H as [->|H]; [reflexivity|]). by subst.
Qed.

(** A hexadecimal digest has 64 characters, all of them in [0-9a-f]. *)
Lemma hexdigest_shape msg :
  length (SHA256.hexdigest msg) = 64%nat
  /\ Forall (fun a => is_hex_digit a = true) (SHA256.hexdigest msg).
Proof.
  unfold SHA256.hexdigest. destruct (digest_shape msg) as [Hlen Hrange]. split.
  - rewrite (flat_map_length_const _ 2) by done. by rewrite Hlen.
  - clear Hlen. induction Hrange as [|b bs Hb _ IH]; simpl; [constructor|].
    constructor; [|constructor; [|exact IH]]; apply hex_digit_is_hex.
    + split; [apply Z.div_pos; lia|apply Z.div_lt_upper_bound; lia].
    + apply Z.mod_pos_bound. lia.
Qed.

(** X7. Whatever the text and the metadata, a chunk id is a string of
    exactly 16 characters, each one of [0-9a-f]. *)
Theorem chunk_id_shape (text : pystr) (metadata : Metadata.t) :
  String.length (generate_chunk_id text metadata) = 16%nat
  /\ Forall (fun a => is_hex_digit a = true)
       (list_ascii_of_string (generate_chunk_id text metadata)).
Proof.
  unfold generate_chunk_id.
  set (msg := encode _).
  destruct (hexdigest_shape msg) as [Hlen Hhex].
  rewrite list_ascii_of_string_of_list_ascii. split.
  - rewrite <- (list_ascii_of_string_of_list_ascii (take 16 (SHA256.hexdigest msg))) at 1.
    assert (forall s, String.length s = length (list_ascii_of_string s)) as Hl.
    { induction s as [|a s IH]; simpl; [done|]. by rewrite IH. }
    rewrite Hl, !list_ascii_of_string_of_list_ascii, length_take, Hlen. done.
  - by apply Forall_take.
Qed.

(** ** What is serialised is ASCII *)

Lemma json_escape_printable a : forallb printable (json_escape a) = true.
Proof. destruct a as [[] [] [] [] [] [] [] []]; reflexivity. Qed.

Lemma forallb_app_true {A} (f : A -> bool) l k :
  forallb f l = true -> forallb f k = true -> forallb f (l ++ k) = true.
Proof. intros Hl Hk. by rewrite forallb_app, Hl, Hk. Qed.

Lemma json_string_printable s : forallb printable (json_string s) = true.
Proof.
  unfold json_string. apply forallb_app_true; [done|].
  apply forallb_app_true; [|done].
  induction s as [|a s IH]; simpl; [done|].
  apply forallb_app_true; [apply json_escape_printable|exact IH].
Qed.

Lemma string_of_uint_printable u :
  forallb printable (py (NilEmpty.string_of_uint u)) = true.
Proof. induction u; simpl; try done. Qed.

Lemma string_of_uint_zero_printable u :
  forallb printable (py (NilZero.string_of_uint u)) = true.
Proof.
  unfold NilZero.string_of_uint.
  destruct u; try done;
    match goal with |- context [NilEmpty.string_of_uint ?v] =>
      apply (string_of_uint_printable v) end.
Qed.

Lemma str_of_int_printable n : forallb printable (str_of_int n) = true.
Proof.
  unfold str_of_int, NilZero.string_of_int.
  destruct (Z.to_int n) as [u|u]; [apply string_of_uint_zero_printable|].
  change (py (String "-" (NilZero.string_of_uint u)))
    with ("-"%char :: py (NilZero.string_of_uint u)).
  simpl. apply string_of_uint_zero_printable.
Qed.

Lemma json_item_printable kv : forallb printable (json_item kv) = true.
Proof.
  unfold json_item. apply forallb_app_true; [apply json_string_printable|].
  apply forallb_app_true; [done|].
  destruct kv.2; [apply str_of_int_printable|apply json_string_printable].
Qed.

Lemma join_printable sep l :
  forallb printable sep = true ->
  Forall (fun x => forallb printable x = true) l ->
  forallb printable (join sep l) = true.
Proof.
  intros Hsep. induction 1 as [|x l Hx Hl IH]; [done|].
  destruct l as [|y l]; [done|].
  change (join sep (x :: y :: l)) with (x ++ sep ++ join sep (y :: l)).
  by repeat apply forallb_app_true.
Qed.

(** X8. Whatever the keys and the values, [json.dumps] writes printable
    ASCII only (every other character of a string is escaped), so that the
    metadata part of what [generate_chunk_id] hashes, and the bodies of
    the handler's responses, encode to one byte per character. *)
Theorem json_dumps_is_ascii (sort_keys : bool) (d : list (string * json)) :
  Forall (fun a => 32 <= code a <= 126) (json_dumps sort_keys d)
  /\ encode (json_dumps sort_keys d) = map code (json_dumps sort_keys d).
Proof.
  assert (forallb printable (json_dumps sort_keys d) = true) as H.
  { unfold json_dumps. apply forallb_app_true; [done|].
    apply forallb_app_true; [|done].
    apply join_printable; [done|]. apply Forall_fmap, Forall_forall.
    intros kv _. apply json_item_printable. }
  assert (Forall (fun a => 32 <= code a <= 126) (json_dumps sort_keys d)) as Hall.
  { revert H. generalize (json_dumps sort_keys d). intros l.
    induction l as [|a l IH]; simpl; [constructor|].
    intros [Ha Hl]%andb_true_iff. constructor; [|by apply IH].
    unfold printable in Ha. apply andb_true_iff in Ha as [?%Z.leb_le ?%Z.leb_le]. done. }
  split; [done|]. clear H.
  induction Hall as [|a l Ha _ IH]; [done|].
  unfold encode in *. simpl. rewrite IH.
  destruct (Z.ltb_spec (code a) 128); [done|lia].
Qed.

(** ** UTF-8 *)

Lemma code_range a : 0 <= code a < 256.
Proof. destruct a as [[] [] [] [] [] [] [] []]; vm_compute; split; congruence. Qed.

(** X9. [str.encode()] gives bytes, at least one and at most two for each
    character (of a code point below 256), and the code points themselves
    when the text is ASCII. *)
Theorem encode_bytes (s : pystr) :
  Forall (fun b => 0 <= b < 256) (encode s)
  /\ len s <= len (encode s) <= 2 * len s
  /\ (Forall (fun a => code a < 128) s -> encode s = map code s).
Proof.
  unfold encode. split; [|split].
  - apply Forall_flat_map_intro. intros a. pose proof (code_range a).
    destruct (Z.ltb_spec (code a) 128).
    + constructor; [lia|constructor].
    + constructor; [|constructor; [|constructor]].
      * assert (code a / 64 < 4) by (apply Z.div_lt_upper_bound; lia).
        assert (0 <= code a / 64) by (apply Z.div_pos; lia). lia.
      * pose proof (Z.mod_pos_bound (code a) 64 ltac:(lia)). lia.
  - unfold len. induction s as [|a s IH]; simpl; [lia|].
    rewrite length_app. destruct (code a <? 128); simpl; lia.
  - induction 1 as [|a s Ha _ IH]; simpl; [done|].
    rewrite IH. by destruct (Z.ltb_spec (code a) 128); [|lia].
Qed.

Lemma encode_bytes_witness : encode (py "abc") = map code (py "abc").
Proof.
  apply (encode_bytes (py "abc")).
  repeat constructor.
Defined.

(** ** The prefix of the object keys *)

Lemma lower_char_idem a : lower_char (lower_char a) = lower_char a.
Proof. destruct a as [[] [] [] [] [] [] [] []]; reflexivity. Qed.

Lemma key_char_normalised a :
  let hyphen a := if bool_decide (a = " "%char) then "-"%char else a in
  hyphen (lower_char a) ≠ " "%char
  /\ is_ascii_upper (hyphen (lower_char a)) = false
  /\ hyphen (lower_char (hyphen a)) = hyphen (lower_char a)
  /\ hyphen (lower_char (hyphen (lower_char a))) = hyphen (lower_char a).
Proof.
  destruct a as [[] [] [] [] [] [] [] []];
    (split; [discriminate|split; [reflexivity|split; reflexivity]]).
Qed.

(** X10. The lens and pillar parts of an object key, as [store_vectors]
    normalises them, hold no space and no upper-case ASCII letter, and are
    the same for names that differ only in case or in spaces against
    hyphens; normalising twice changes nothing. *)
Theorem key_prefix_normalised (name : string) :
  let key := replace_space_hyphen (lower name) in
  Forall (fun a => a ≠ " "%char /\ is_ascii_upper a = false) (list_ascii_of_string key)
  /\ replace_space_hyphen (lower (lower name)) = key
  /\ replace_space_hyphen (lower (replace_space_hyphen name)) = key
  /\ replace_space_hyphen (lower key) = key.
Proof.
  unfold replace_space_hyphen, lower.
  induction name as [|a name (IH1 & IH2 & IH3 & IH4)]; simpl; [by repeat split|].
  destruct (key_char_normalised a) as (H1 & H2 & H3 & H4). simpl in *.
  split; [by constructor|]. split; [by rewrite lower_char_idem, IH2|].
  split; [by rewrite H3, IH3|by rewrite H4, IH4].
Qed.

(** ** What [store_vectors] writes *)

Lemma chunk_key_not_index lens_key pillar_key chunk :
  chunk_key lens_key pillar_key chunk ≠ index_key.
Proof. unfold chunk_key, index_key. simpl. discriminate. Qed.

Lemma list_ascii_of_string_app s t :
  list_ascii_of_string (s ++ t) = list_ascii_of_string s ++ list_ascii_of_string t.
Proof. induction s as [|a s IH]; simpl; [done|]. by rewrite IH. Qed.

Lemma string_app_inv_tail (s1 s2 t : string) : (s1 ++ t = s2 ++ t)%string -> s1 = s2.
Proof.
  intros H. apply (f_equal list_ascii_of_string) in H.
  rewrite !list_ascii_of_string_app in H. apply app_inv_tail in H.
  apply (f_equal string_of_list_ascii) in H.
  by rewrite !string_of_list_ascii_of_string in H.
Qed.

(** Under one lens and pillar, the key determines the id. *)
Lemma chunk_key_inj lens_key pillar_key c c' :
  chunk_key lens_key pillar_key c = chunk_key lens_key pillar_key c' ->
  ChunkRecord.id c = ChunkRecord.id c'.
Proof.
  unfold chunk_key. intros H.
  do 5 apply String.app_inj in H. by apply string_app_inv_tail in H.
Qed.

Lemma put_chunks_snoc lens_name pillar chunks c v :
  put_chunks lens_name pillar (chunks ++ [c]) v
  = <[chunk_key (replace_space_hyphen (lower lens_name))
                  (replace_space_hyphen (lower pillar)) c := ChunkBody c]>
      (put_chunks lens_name pillar chunks v).
Proof. unfold put_chunks. by rewrite foldl_app. Qed.

Lemma put_chunks_other lens_name pillar chunks v key :
  (forall c, c ∈ chunks ->
     key ≠ chunk_key (replace_space_hyphen (lower lens_name))
                     (replace_space_hyphen (lower pillar)) c) ->
  put_chunks lens_name pillar chunks v !! key = v !! key.
Proof.
  induction chunks as [|c chunks IH] using rev_ind; intros Hkey; [done|].
  rewrite put_chunks_snoc, lookup_insert_ne.
  - apply IH. intros c' Hc'. apply Hkey, elem_of_app. by left.
  - intros Heq. apply (Hkey c); [|done]. apply elem_of_app. right. apply list_elem_of_here.
Qed.

(** X11. [store_vectors] writes under the keys of its chunks and nowhere
    else, whether it returns or stops at a failing write: every other
    object of the bucket, and the index object in particular, is as it was
    before. *)
Theorem store_vectors_keeps_other_objects chunks lens_name pillar (w : World) :
  match store_vectors chunks lens_name pillar w with
  | Return _ w' | Throw _ w' =>
      vectors w' !! index_key = vectors w !! index_key
      /\ forall key,
           (forall c, c ∈ chunks ->
              key ≠ chunk_key (replace_space_hyphen (lower lens_name))
                              (replace_space_hyphen (lower pillar)) c) ->
           vectors w' !! key = vectors w !! key
  | Diverge => False
  end.
Proof.
  pose proof (store_vectors_run chunks lens_name pillar w) as H.
  destruct (store_vectors chunks lens_name pillar w) as [[] w'|e w'|]; [| |done].
  - rewrite H. split; [|apply put_chunks_other].
    apply put_chunks_other. intros c _ Heq. by eapply chunk_key_not_index.
  - destruct H as (k & _ & ->).
    split.
    + apply put_chunks_other. intros c _ Heq. by eapply chunk_key_not_index.
    + intros key Hkey. apply put_chunks_other. intros c Hc. apply Hkey.
      by eapply subseteq_take.
Qed.

(** X12. After a [store_vectors] that returns, when the ids of the chunks
    are pairwise different, every chunk is read back under its key exactly
    as it was given. *)
Theorem stored_chunks_are_read_back chunks lens_name pillar (w w' : World) c :
  store_vectors chunks lens_name pillar w = Return () w' ->
  NoDup (ChunkRecord.id <$> chunks) ->
  c ∈ chunks ->
  vectors w' !! chunk_key (replace_space_hyphen (lower lens_name))
                          (replace_space_hyphen (lower pillar)) c
  = Some (ChunkBody c).
Proof.
  intros Hrun Hnodup Hc.
  pose proof (store_vectors_run chunks lens_name pillar w) as H.
  rewrite Hrun in H. rewrite H. clear H Hrun.
  induction chunks as [|c' chunks IH] using rev_ind; [by apply elem_of_nil in Hc|].
  rewrite fmap_app in Hnodup. apply NoDup_app in Hnodup as (Hnd & Hdisj & _).
  rewrite put_chunks_snoc.
  apply elem_of_app in Hc as [Hc|Hc].
  - rewrite lookup_insert_ne; [by apply IH|].
    intros Heq%chunk_key_inj. apply (Hdisj (ChunkRecord.id c)).
    + by apply list_elem_of_fmap_2.
    + rewrite <- Heq. apply list_elem_of_here.
  - apply list_elem_of_singleton in Hc as ->. apply lookup_insert_eq.
Qed.

Lemma stored_chunks_are_read_back_witness :
  let w := example_world [] [] in
  let c0 := chunk_record "Lens" "Pillar" "f" (Chunk.Make (py "ab") 0 0 12) [] "t0" in
  let c1 := chunk_record "Lens" "Pillar" "f" (Chunk.Make (py "cd") 1 8 20) [] "t1" in
  exists w',
    store_vectors [c0; c1] "Lens" "Pillar" w = Return () w'
    /\ vectors w' !! chunk_key "lens" "pillar" c0 = Some (ChunkBody c0).
Proof.
  intros w c0 c1.
  assert (exists w', store_vectors [c0; c1] "Lens" "Pillar" w = Return () w')
    as [w' Hrun].
  { vm_compute. eexists. reflexivity. }
  exists w'. split; [exact Hrun|].
  apply (stored_chunks_are_read_back [c0; c1] "Lens" "Pillar" w w' c0 Hrun).
  - apply (bool_decide_unpack _). vm_compute. reflexivity.
  - apply list_elem_of_here.
Defined.

(** ** What [update_index] writes *)

(** X13. An [update_index] that returns has set the entry of its lens and
    pillar to the given count and to the time it read from the clock,
    replacing what the entry held, and has left every other entry of the
    index as it was. *)
Theorem update_index_sets_one_entry lens_name pillar chunk_count (w w' : World) :
  update_index lens_name pillar chunk_count w = Return () w' ->
  index_entry w' lens_name pillar
  = Some (IndexEntry.Make chunk_count (clock w (S (calls w))))
  /\ forall lens_name' pillar',
       (lens_name', pillar') ≠ (lens_name, pillar) ->
       index_entry w' lens_name' pillar' = index_entry w lens_name' pillar'.
Proof.
  intros Hrun. split.
  - rewrite (update_index_Return _ _ _ _ _ _ _ Hrun). by rewrite decide_True.
  - intros lens_name' pillar' Hne.
    rewrite (update_index_Return _ _ _ _ _ _ _ Hrun).
    rewrite decide_False; [done|]. intros [-> ->]. done.
Qed.

Lemma update_index_sets_one_entry_witness :
  let w := example_world [] [] in
  let w' :=
    with_state w 3
      (<[index_key := IndexBody (updated_index ∅ "Lens" "A" 5 (example_clock 1))]> ∅) in
  index_entry w' "Lens" "A" = Some (IndexEntry.Make 5 (example_clock 1)).
Proof.
  intros w w'.
  apply (update_index_sets_one_entry "Lens" "A" 5 w w').
  vm_compute. reflexivity.
Defined.

(** X14. [update_index] writes the index object and nothing else: whether
    it returns or raises, every other object of the bucket is as it was,
    and it makes at most three calls (the read, the clock, the write). *)
Theorem update_index_keeps_other_objects lens_name pillar chunk_count (w : World) :
  match update_index lens_name pillar chunk_count w with
  | Return _ w' | Throw _ w' =>
      (forall key, key ≠ index_key -> vectors w' !! key = vectors w !! key)
      /\ (calls w < calls w' <= calls w + 3)%nat
  | Diverge => False
  end.
Proof.
  rewrite update_index_run.
  destruct (vectors_get_fault w (calls w) index_key); [simpl; split; [done|lia]|].
  destruct (vectors w !! index_key) as [[chunk|index|e]|];
    try (simpl; split; [done|lia]);
    (destruct (vectors_put_fault w (S (S (calls w))) index_key);
     simpl; (split; [|lia]); [done|]; intros key Hkey; by rewrite lookup_insert_ne).
Qed.

(** ** The calls of a run *)

Lemma for_each_process_chunk_calls lens_name pillar source_file chunks w records w' :
  for_each (process_chunk lens_name pillar source_file) chunks w = Return records w' ->
  calls w' = (calls w + 2 * length chunks)%nat /\ length records = length chunks.
Proof.
  revert w records. induction chunks as [|c chunks IH]; intros w records; simpl.
  - intros [= <- <-]. split; [lia|done].
  - intros (r & w1 & Hr & (rs & w2 & Hrs & [= <- <-])%bind_Return)%bind_Return.
    rewrite process_chunk_run in Hr.
    destruct (bedrock w (calls w) _); [|done]. injection Hr as <- <-.
    destruct (IH _ _ Hrs) as [-> Hlen]. simpl. split; lia.
Qed.

Lemma store_vectors_calls chunks lens_name pillar w w' :
  store_vectors chunks lens_name pillar w = Return () w' ->
  calls w' = (calls w + length chunks)%nat.
Proof.
  unfold store_vectors. intros (ys & w1 & Hrun & [= <-])%bind_Return.
  revert w ys Hrun. induction chunks as [|c chunks IH]; intros w ys; simpl.
  - intros [= <- <-]. lia.
  - intros (y & w2 & Hput & (ys' & w3 & Hrest & [= <- <-])%bind_Return)%bind_Return.
    unfold put_object in Hput. destruct (vectors_put_fault w (calls w) _); [done|].
    injection Hput as <- <-. rewrite (IH _ _ Hrest). simpl. lia.
Qed.

Lemma update_index_calls lens_name pillar chunk_count w w' :
  update_index lens_name pillar chunk_count w = Return () w' ->
  calls w' = (calls w + 3)%nat.
Proof.
  rewrite update_index_run.
  destruct (vectors_get_fault w (calls w) index_key); [done|].
  destruct (vectors w !! index_key) as [[chunk|index|e]|]; try done;
    (destruct (vectors_put_fault w (S (S (calls w))) index_key); [done|]);
    intros [= <-]; simpl; lia.
Qed.

(** X15. A run that succeeds over [n] chunks has made exactly [3 * n + 4]
    calls to the outside: one fetch, an embedding request and a reading of
    the clock for each chunk, one write for each chunk, and the read, the
    clock and the write of the index update. *)
Theorem successful_run_calls fuel (event : gmap string string) (w w' : World) chunks :
  run fuel event w = Return chunks w' ->
  calls w' = (calls w + 3 * length chunks + 4)%nat.
Proof.
  destruct (event_fields event) as [Hmiss|(sk & L & P & sf & H1 & H2 & H3 & H4)].
  { destruct (run_missing_field fuel event w Hmiss) as [key ->]. done. }
  rewrite (run_stages fuel event sk L P sf w H1 H2 H3 H4), process_document_run.
  destruct (source_object w (calls w) sk) as [content|]; [|done].
  destruct (chunk_text fuel content 800 60) as [[cs|]|]; [|done|done].
  destruct (for_each (process_chunk L P sf) cs (tick w)) as [records w1| |] eqn:Hdoc;
    [|done|done].
  destruct (store_vectors records L P w1) as [[] w2| |] eqn:Hstore; [|done|done].
  destruct (update_index L P (len records) w2) as [[] w3| |] eqn:Hup; [|done|done].
  intros [= <- <-].
  apply for_each_process_chunk_calls in Hdoc as [Hc1 Hlen].
  apply store_vectors_calls in Hstore. apply update_index_calls in Hup.
  simpl in Hc1. lia.
Qed.

Lemma successful_run_calls_witness :
  exists chunks w',
    run 11 example_event (example_world (py "abcdefghij") []) = Return chunks w'
    /\ calls w' = 7%nat.
Proof.
  assert (exists chunks w',
            run 11 example_event (example_world (py "abcdefghij") []) = Return chunks w'
            /\ length chunks = 1%nat) as (chunks & w' & Hrun & Hlen).
  { vm_compute. eexists _, _. split; reflexivity. }
  exists chunks, w'. split; [exact Hrun|].
  rewrite (successful_run_calls 11 example_event _ w' chunks Hrun), Hlen. reflexivity.
Defined.

(** ** Runs that fail *)

Lemma store_vectors_returns chunks lens_name pillar w :
  no_vectors_faults w ->
  exists w', store_vectors chunks lens_name pillar w = Return () w'.
Proof.
  intros Hfaults. unfold store_vectors. rewrite bind_run.
  set (f := fun chunk : ChunkRecord.t => put_object _ _).
  assert (exists ys w', for_each f chunks w = Return ys w') as (ys & w' & ->);
    [|by eexists].
  revert w Hfaults. induction chunks as [|c chunks IH]; intros w Hfaults; simpl;
    [by eexists _, _|].
  rewrite bind_run. unfold f at 1, put_object.
  destruct (Hfaults (calls w) (chunk_key (replace_space_hyphen (lower lens_name))
                                 (replace_space_hyphen (lower pillar)) c)) as [_ ->].
  rewrite bind_run.
  match goal with |- context [for_each f chunks ?w1] =>
    destruct (IH w1 Hfaults) as (ys & w' & ->) end.
  by eexists _, _.
Qed.

(** X16. When the index object is there but is not an index, a run whose
    document was fetched, chunked and embedded, on a bucket that answers,
    still writes every chunk object, and then fails in [update_index]: the
    handler answers 500 with the exception that reading the object raised,
    the chunk objects stay, and the index object is as it was. *)
Theorem unreadable_index_fails_after_storing fuel (event : gmap string string)
    source_key lens_name pillar source_file (w w1 : World) chunks e :
  event !! "source_key"%string = Some source_key ->
  event !! "lens_name"%string = Some lens_name ->
  event !! "pillar"%string = Some pillar ->
  event !! "source_file"%string = Some source_file ->
  process_document fuel source_key lens_name pillar source_file w = Return chunks w1 ->
  no_vectors_faults w ->
  vectors w !! index_key = Some (MalformedBody e) ->
  exists w',
    handler fuel event w = Return (failure e) w'
    /\ vectors w' = put_chunks lens_name pillar chunks (vectors w)
    /\ vectors w' !! index_key = Some (MalformedBody e).
Proof.
  intros H1 H2 H3 H4 Hdoc Hfaults Hindex.
  pose proof (process_document_read_only fuel source_key lens_name pillar source_file w)
    as Hro.
  rewrite Hdoc in Hro. destruct Hro as [(_ & _ & _ & Hget & Hput & _) Hv1].
  assert (no_vectors_faults w1) as Hfaults1.
  { intros n key. rewrite Hget, Hput. apply Hfaults. }
  destruct (store_vectors_returns chunks lens_name pillar w1 Hfaults1) as [w2 Hstore].
  pose proof (store_vectors_run chunks lens_name pillar w1) as Hrun.
  pose proof (store_vectors_same_env chunks lens_name pillar w1) as Henv.
  rewrite Hstore in Hrun, Henv. destruct Henv as (_ & _ & _ & Hget2 & _).
  assert (vectors w2 !! index_key = Some (MalformedBody e)) as Hindex2.
  { rewrite Hrun, Hv1, put_chunks_other; [done|].
    intros c _ Heq. by eapply chunk_key_not_index. }
  assert (update_index lens_name pillar (len chunks) w2 = Throw e (tick w2)) as Hup.
  { rewrite update_index_run, Hget2, Hget, (proj1 (Hfaults _ _)), Hindex2. done. }
  exists (tick w2).
  rewrite handler_run, (run_stages fuel event _ _ _ _ w H1 H2 H3 H4), Hdoc, Hstore, Hup.
  split; [done|]. simpl. by rewrite Hrun, Hv1 in *.
Qed.

Lemma unreadable_index_fails_after_storing_witness :
  let w :=
    with_state (example_world (py "abcdefghij") []) 0
      {[ index_key := MalformedBody (ClientError "Expecting value") ]} in
  exists w',
    handler 11 example_event w = Return (failure (ClientError "Expecting value")) w'
    /\ vectors w' !! index_key = Some (MalformedBody (ClientError "Expecting value")).
Proof.
  intros w.
  assert (exists chunks w1,
            process_document 11
              "wellarchitected/wellarchitected-operational-excellence-pillar.pdf"
              "Well-Architected Framework" "Operational Excellence"
              "wellarchitected-operational-excellence-pillar.pdf" w
            = Return chunks w1) as (chunks & w1 & Hdoc).
  { vm_compute. eexists _, _. reflexivity. }
  destruct (unreadable_index_fails_after_storing 11 example_event _ _ _ _ w w1 chunks
              (ClientError "Expecting value") eq_refl eq_refl eq_refl eq_refl Hdoc)
    as (w' & Hrun & _ & Hindex).
  - intros n key. split; reflexivity.
  - reflexivity.
  - by exists w'.
Defined.

(** X17. An event that lacks a field makes the handler answer 500 with the
    [KeyError] of the first field it misses, in the order [source_key],
    [lens_name], [pillar], [source_file], before any call to the outside:
    the world is as it was. *)
Theorem missing_field_fails_first fuel (event : gmap string string) (w : World) :
  (event !! "source_key"%string = None ->
   handler fuel event w = Return (failure (KeyError "source_key")) w)
  /\ (is_Some (event !! "source_key"%string) ->
      event !! "lens_name"%string = None ->
      handler fuel event w = Return (failure (KeyError "lens_name")) w)
  /\ (is_Some (event !! "source_key"%string) ->
      is_Some (event !! "lens_name"%string) ->
      event !! "pillar"%string = None ->
      handler fuel event w = Return (failure (KeyError "pillar")) w)
  /\ (is_Some (event !! "source_key"%string) ->
      is_Some (event !! "lens_name"%string) ->
      is_Some (event !! "pillar"%string) ->
      event !! "source_file"%string = None ->
      handler fuel event w = Return (failure (KeyError "source_file")) w).
Proof.
  rewrite handler_run. unfold run, event_get. run_M.
  repeat split.
  - by intros ->.
  - by intros [? ->] ->.
  - by intros [? ->] [? ->] ->.
  - by intros [? ->] [? ->] [? ->] ->.
Qed.

Lemma missing_field_fails_first_witness :
  handler 0 (delete "pillar"%string example_event) (example_world [] [])
  = Return (failure (KeyError "pillar")) (example_world [] []).
Proof.
  apply (missing_field_fails_first 0 (delete "pillar"%string example_event)
           (example_world [] [])).
  - by eexists.
  - by eexists.
  - reflexivity.
Defined.

(** X18. When the fetch of the document raises, the handler answers 500
    with that exception after this one call: no embedding is requested and
    nothing is written. *)
Theorem fetch_failure_stops_the_run fuel (event : gmap string string)
    source_key lens_name pillar source_file (w : World) e :
  event !! "source_key"%string = Some source_key ->
  event !! "lens_name"%string = Some lens_name ->
  event !! "pillar"%string = Some pillar ->
  event !! "source_file"%string = Some source_file ->
  source_object w (calls w) source_key = Raise e ->
  handler fuel event w = Return (failure e) (tick w).
Proof.
  intros H1 H2 H3 H4 Hsrc.
  by rewrite handler_run, (run_stages fuel event _ _ _ _ w H1 H2 H3 H4),
    process_document_run, Hsrc.
Qed.

(** X19. The records that [process_document] returns are those of the
    chunks of the document, one for one and in order: each has the text
    and the index and offsets of its chunk, the lens, pillar and file it
    was called with, and the id that [generate_chunk_id] gives its text
    and metadata. *)
Theorem records_follow_the_chunks fuel source_key lens_name pillar source_file
    (w w' : World) records :
  process_document fuel source_key lens_name pillar source_file w = Return records w' ->
  exists content chunks,
    source_object w (calls w) source_key = Ok content
    /\ chunk_text fuel content 800 60 = Some (Ok chunks)
    /\ Forall2 (fun chunk record =>
         let m := ChunkRecord.metadata record in
         ChunkRecord.text record = Chunk.text chunk
         /\ Metadata.chunk_index m = Chunk.chunk_index chunk
         /\ Metadata.start_char m = Chunk.start_char chunk
         /\ Metadata.end_char m = Chunk.end_char chunk
         /\ Metadata.lens_name m = lens_name
         /\ Metadata.pillar m = pillar
         /\ Metadata.source_file m = source_file
         /\ ChunkRecord.id record = generate_chunk_id (ChunkRecord.text record) m)
         chunks records.
Proof.
  rewrite process_document_run.
  destruct (source_object w (calls w) source_key) as [content|] eqn:Hsrc; [|done].
  destruct (chunk_text fuel content 800 60) as [[chunks|]|] eqn:Hchunks; [|done|done].
  intros Hrun%for_each_process_chunk. exists content, chunks.
  split; [done|]. split; [done|].
  eapply Forall2_impl; [exact Hrun|].
  intros c r (n & v & _ & ->). by repeat split.
Qed.

Lemma fetch_failure_stops_the_run_witness :
  handler 0 example_event empty_source_world
  = Return (failure (NoSuchKey no_such_key_msg)) (tick empty_source_world).
Proof.
  apply (fetch_failure_stops_the_run 0 example_event
           "wellarchitected/wellarchitected-operational-excellence-pillar.pdf"
           "Well-Architected Framework" "Operational Excellence"
           "wellarchitected-operational-excellence-pillar.pdf"); reflexivity.
Defined.

Lemma records_follow_the_chunks_witness :
  exists records content chunks,
    records ≠ []
    /\ source_object (example_world (py "abcdefghij") []) 0 "doc.txt" = Ok content
    /\ chunk_text 11 content 800 60 = Some (Ok chunks)
    /\ Forall2 (fun chunk record =>
         let m := ChunkRecord.metadata record in
         ChunkRecord.text record = Chunk.text chunk
         /\ Metadata.chunk_index m = Chunk.chunk_index chunk
         /\ Metadata.start_char m = Chunk.start_char chunk
         /\ Metadata.end_char m = Chunk.end_char chunk
         /\ Metadata.lens_name m = "Lens"%string
         /\ Metadata.pillar m = "Pillar"%string
         /\ Metadata.source_file m = "doc.txt"%string
         /\ ChunkRecord.id record = generate_chunk_id (ChunkRecord.text record) m)
         chunks records.
Proof.
  assert (exists records w',
            process_document 11 "doc.txt" "Lens" "Pillar" "doc.txt"
              (example_world (py "abcdefghij") []) = Return records w'
            /\ records ≠ []) as (records & w' & Hrun & Hne).
  { vm_compute. eexists _, _. split; [reflexivity|done]. }
  destruct (records_follow_the_chunks _ _ _ _ _ _ _ _ Hrun)
    as (content & chunks & H1 & H2 & H3).
  by exists records, content, chunks.
Defined.

(** ** The script that submits the documents *)

Lemma submit_counts function_name counters doc :
  let '(successful, failed, l) := counters in
  let '(successful', failed', l') := submit function_name counters doc in
  successful' + failed' = successful + failed + 1
  /\ successful <= successful' /\ failed <= failed'
  /\ lambda_invoke l' = lambda_invoke l
  /\ invoked l' = invoked l ++ (if printed_fields doc then [doc] else []).
Proof.
  destruct counters as [[successful failed] l]. unfold submit, invoke.
  destruct (printed_fields doc); [|rewrite app_nil_r; repeat split; lia].
  destruct (lambda_invoke l (length (invoked l)) function_name doc) as [status|];
    [destruct (status =? 202)|]; simpl; repeat split; lia.
Qed.

Lemma process_documents_counts function_name documents successful failed l :
  let '(successful', failed', l') :=
    foldl (submit function_name) (successful, failed, l) documents in
  successful' + failed' = successful + failed + len documents
  /\ successful <= successful' /\ failed <= failed'
  /\ invoked l' = invoked l ++ filter (fun doc => printed_fields doc = true) documents.
Proof.
  revert successful failed l.
  induction documents as [|doc documents IH]; intros successful failed l;
    cbn [foldl].
  - unfold len. rewrite filter_nil, app_nil_r. simpl. repeat split; lia.
  - pose proof (submit_counts function_name (successful, failed, l) doc) as Hstep.
    destruct (submit function_name (successful, failed, l) doc)
      as [[successful1 failed1] l1].
    destruct Hstep as (Hsum & Hs & Hf & _ & Hlog).
    specialize (IH successful1 failed1 l1).
    destruct (foldl (submit function_name) (successful1, failed1, l1) documents)
      as [[successful2 failed2] l2].
    destruct IH as (Hsum2 & Hs2 & Hf2 & Hlog2).
    unfold len in *. simpl length. split; [lia|]. split; [lia|]. split; [lia|].
    rewrite Hlog2, Hlog, <- app_assoc. f_equal.
    rewrite filter_cons.
    destruct (printed_fields doc); [by rewrite decide_True|by rewrite decide_False].
Qed.

(** X20. [process_documents] counts every document exactly once, as
    successful or as failed, whatever the service answers and whichever
    invocations raise; it invokes the function for the documents that
    carry the three fields it prints, once each and in the order of the
    list, and counts no more successes than invocations. *)
Theorem process_documents_counts_every_document function_name
    (documents : list (gmap string string)) (l : Lambda) :
  let '(successful, failed, l') := process_documents function_name documents l in
  successful + failed = len documents
  /\ 0 <= successful /\ 0 <= failed
  /\ invoked l' = invoked l ++ filter (fun doc => printed_fields doc = true) documents
  /\ successful <= len (filter (fun doc => printed_fields doc = true) documents).
Proof.
  unfold process_documents.
  pose proof (process_documents_counts function_name documents 0 0 l) as H.
  assert (forall docs s f l0,
            let '(s', f', _) := foldl (submit function_name) (s, f, l0) docs in
            s' - s <= len (filter (fun doc => printed_fields doc = true) docs)) as Hle.
  { induction docs as [|doc docs IH]; intros s f l0; cbn [foldl];
      [unfold len; rewrite filter_nil; simpl; lia|].
    pose proof (submit_counts function_name (s, f, l0) doc) as Hstep.
    unfold submit in *.
    rewrite filter_cons.
    destruct (printed_fields doc).
    - rewrite decide_True by done.
      destruct (invoke function_name doc l0) as [[status|] l1];
        [destruct (status =? 202)|];
        match goal with |- context [foldl _ (?s1, ?f1, ?l1) docs] =>
          specialize (IH s1 f1 l1);
          destruct (foldl _ (s1, f1, l1) docs) as [[s2 f2] l2] end;
        unfold len in *; simpl length; lia.
    - rewrite decide_False by done. specialize (IH s (f + 1) l0).
      by destruct (foldl _ (s, f + 1, l0) docs) as [[s2 f2] l2]. }
  specialize (Hle documents 0 0 l).
  destruct (foldl (submit function_name) (0, 0, l) documents) as [[successful failed] l'].
  destruct H as (Hsum & Hs & Hf & Hlog). repeat split; try lia. exact Hlog.
Qed.

(** X21. The script asks for three fields and the handler for four: a
    document with [source_file], [lens_name] and [pillar] but without
    [source_key] is submitted and, the service accepting it, counted as
    successful, while the handler given that document as its event answers
    500 with [KeyError('source_key')] and does nothing. *)
Theorem accepted_document_can_fail_in_the_handler function_name
    (doc : gmap string string) (l : Lambda) fuel (w : World) :
  is_Some (doc !! "source_file"%string) ->
  is_Some (doc !! "lens_name"%string) ->
  is_Some (doc !! "pillar"%string) ->
  doc !! "source_key"%string = None ->
  lambda_invoke l (length (invoked l)) function_name doc = Ok 202 ->
  (exists l', process_documents function_name [doc] l = (1, 0, l')
              /\ invoked l' = invoked l ++ [doc])
  /\ handler fuel doc w = Return (failure (KeyError "source_key")) w.
Proof.
  intros Hsf Hl Hp Hsk H202. split.
  - unfold process_documents, submit, printed_fields, invoke. simpl.
    rewrite !bool_decide_eq_true_2 by done. simpl. rewrite H202. simpl.
    by eexists.
  - rewrite handler_run. unfold run, event_get. run_M. by rewrite Hsk.
Qed.

Lemma accepted_document_can_fail_in_the_handler_witness :
  let doc := delete "source_key"%string example_event in
  let l := {| lambda_invoke := fun _ _ _ => Ok 202; invoked := [] |} in
  (exists l', process_documents "VectorProcessor" [doc] l = (1, 0, l')
              /\ invoked l' = invoked l ++ [doc])
  /\ handler 0 doc (example_world [] [])
     = Return (failure (KeyError "source_key")) (example_world [] []).
Proof.
  intros doc l.
  apply (accepted_document_can_fail_in_the_handler "VectorProcessor" doc l 0
           (example_world [] [])).
  - by eexists.
  - by eexists.
  - by eexists.
  - reflexivity.
  - reflexivity.
Defined.
